(** * Shallow embedding of drivers/audio/es8388char.c

    The es8388 test character driver: transmit buffer admission through the
    counting semaphore [alloc], the receive queue [rxedq] with its counting
    semaphore [cnt_rxsem], the configuration state, and the ioctl dispatcher.

    Modelling conventions.
    - Semaphores are modelled by their (POSIX) value: [sem_wait] on a value
      of 0 blocks the caller, otherwise it decrements; [sem_post] increments.
    - The binary semaphores [rxsem] and [exclsem] only delimit critical
      sections; every step of the model is atomic, so they are not kept.
    - Audio buffers ([struct ap_buffer_s *]) are identified by a [nat].
    - The I2C/codec register traffic has no effect on the device record and
      is not kept; [es8388char_setbitrate] is kept as its rate decision.
    - Calls to the collaborators outside this file ([apb_alloc],
      [I2S_SEND], [I2S_RECEIVE]) take their return codes from a list
      [ext] supplied with each step, in call order. *)

From Stdlib Require Import ZArith List Lia Bool.
Import ListNotations.
Open Scope Z_scope.

(** ** Constants *)

Definition OK : Z := 0.
Definition ENOTTY : Z := 25.
Definition ERANGE : Z := 34.

Definition ES8388CHAR_RXBUF_CNT : Z := 8.
Definition ES8388CHAR_TXBUF_CNT : Z := 8.

(** Symbolic constants of the audio header (include/tinyara/audio/audio.h,
    not under src/).  Only their distinctness matters to the driver's
    [switch] statements. *)
Definition AUDIO_TYPE_OUTPUT : Z := 2.
Definition AUDIO_TYPE_FEATURE : Z := 16.
Definition AUDIO_TYPE_PROCESSING : Z := 64.

Definition AUDIO_FU_MUTE : Z := 1.
Definition AUDIO_FU_VOLUME : Z := 2.
Definition AUDIO_FU_BALANCE : Z := 2048.
Definition AUDIO_FU_MICGAIN : Z := 16384.

Definition AUDIO_SAMP_RATE_8K : Z := 8000.
Definition AUDIO_SAMP_RATE_12K : Z := 12000.
Definition AUDIO_SAMP_RATE_16K : Z := 16000.
Definition AUDIO_SAMP_RATE_24K : Z := 24000.
Definition AUDIO_SAMP_RATE_32K : Z := 32000.
Definition AUDIO_SAMP_RATE_48K : Z := 48000.
Definition AUDIO_SAMP_RATE_96K : Z := 96000.

(** The ioctl command codes [AUDIOIOC_*] and [sizeof(struct
    audio_buf_desc_s)] also come from headers outside src/; the dispatcher is
    parametrised by them. *)
Record audio_abi := {
  AUDIOIOC_ALLOCBUFFER : Z;
  AUDIOIOC_FREEBUFFER : Z;
  AUDIOIOC_ENQUEUEBUFFER : Z;
  AUDIOIOC_DEQUEUEBUFFER : Z;
  AUDIOIOC_CONFIGURE : Z;
  AUDIOIOC_START : Z;
  AUDIOIOC_STOP : Z;
  sizeof_audio_buf_desc_s : Z
}.

Definition ioctl_codes (a : audio_abi) : list Z :=
  [AUDIOIOC_ALLOCBUFFER a; AUDIOIOC_FREEBUFFER a; AUDIOIOC_ENQUEUEBUFFER a;
   AUDIOIOC_DEQUEUEBUFFER a; AUDIOIOC_CONFIGURE a; AUDIOIOC_START a;
   AUDIOIOC_STOP a].

(** A C [switch] needs distinct case labels. *)
Definition abi_ok (a : audio_abi) : Prop := NoDup (ioctl_codes a).

(** ** Integer conversions *)

Definition to_uint8 (x : Z) : Z := x mod 256.
Definition to_uint16 (x : Z) : Z := x mod 65536.
(** [int16_t] from a 16-bit pattern (two's complement wrap). *)
Definition to_int16 (x : Z) : Z :=
  let u := x mod 65536 in if u <? 32768 then u else u - 65536.

(** ** Data model *)

Definition buf := nat.

(** [struct es8388char_dev_s], less the bus handles and the mutexes. *)
Record es8388char_dev_s := mk_dev {
  rxedq : list buf;        (* Queue of received audio IN buffers *)
  cnt_rxsem : Z;           (* Counting semaphore: received buffers ready *)
  rx_cnt : Z;              (* Count allocated RX buffers *)
  alloc : Z;               (* Counting semaphore for Alloc TX buffers *)
  samprate : Z;            (* uint32_t *)
  bpsamp : Z;              (* uint8_t *)
  nchannels : Z;           (* uint8_t *)
  volume : Z;              (* uint8_t *)
  balance : Z;             (* int16_t *)
  micgain : Z;             (* int16_t *)
  running : bool;
  paused : bool;
  mute : bool;
  terminating : bool
}.

(** [struct audio_caps_s] as far as the driver reads it; [ac_controls] is a
    union of [uint8_t b[4]], [uint16_t hw[2]] and [uint32_t w], kept as the
    32-bit word and read little-endian. *)
Record audio_caps_s := mk_caps {
  ac_type : Z;          (* uint8_t *)
  ac_channels : Z;      (* uint8_t *)
  ac_format_hw : Z;     (* uint16_t *)
  ac_controls_w : Z     (* uint32_t *)
}.

Definition ac_controls_b (c : audio_caps_s) (i : Z) : Z :=
  Z.land (Z.shiftr (ac_controls_w c) (8 * i)) 255.
Definition ac_controls_hw (c : audio_caps_s) (i : Z) : Z :=
  Z.land (Z.shiftr (ac_controls_w c) (16 * i)) 65535.

(** The memory [arg] points to, seen as a buffer descriptor
    ([struct audio_buf_desc_s]: [numbytes], [u.pBuffer]) or as a
    [struct audio_caps_s], as each command reads it. *)
Record ioctl_arg := mk_arg {
  a_numbytes : Z;
  a_pBuffer : buf;
  a_caps : audio_caps_s
}.

(** The driver together with the collaborators' state: buffers accepted by
    the I2S lower half and not yet called back, and the next fresh buffer. *)
Record world := mk_world {
  priv : es8388char_dev_s;
  tx_inflight : list buf;
  rx_inflight : list buf;
  next_apb : nat
}.

(** Field updates. *)
Definition set_alloc (d : es8388char_dev_s) (v : Z) : es8388char_dev_s :=
  mk_dev (rxedq d) (cnt_rxsem d) (rx_cnt d) v (samprate d) (bpsamp d)
    (nchannels d) (volume d) (balance d) (micgain d) (running d) (paused d)
    (mute d) (terminating d).
Definition set_rx_cnt (d : es8388char_dev_s) (v : Z) : es8388char_dev_s :=
  mk_dev (rxedq d) (cnt_rxsem d) v (alloc d) (samprate d) (bpsamp d)
    (nchannels d) (volume d) (balance d) (micgain d) (running d) (paused d)
    (mute d) (terminating d).
Definition set_rxq (d : es8388char_dev_s) (q : list buf) (c : Z)
  : es8388char_dev_s :=
  mk_dev q c (rx_cnt d) (alloc d) (samprate d) (bpsamp d)
    (nchannels d) (volume d) (balance d) (micgain d) (running d) (paused d)
    (mute d) (terminating d).
Definition set_volume (d : es8388char_dev_s) (v : Z) : es8388char_dev_s :=
  mk_dev (rxedq d) (cnt_rxsem d) (rx_cnt d) (alloc d) (samprate d) (bpsamp d)
    (nchannels d) v (balance d) (micgain d) (running d) (paused d)
    (mute d) (terminating d).
Definition set_mute (d : es8388char_dev_s) (v : bool) : es8388char_dev_s :=
  mk_dev (rxedq d) (cnt_rxsem d) (rx_cnt d) (alloc d) (samprate d) (bpsamp d)
    (nchannels d) (volume d) (balance d) (micgain d) (running d) (paused d)
    v (terminating d).
Definition set_balance (d : es8388char_dev_s) (v : Z) : es8388char_dev_s :=
  mk_dev (rxedq d) (cnt_rxsem d) (rx_cnt d) (alloc d) (samprate d) (bpsamp d)
    (nchannels d) (volume d) v (micgain d) (running d) (paused d)
    (mute d) (terminating d).
Definition set_micgain (d : es8388char_dev_s) (v : Z) : es8388char_dev_s :=
  mk_dev (rxedq d) (cnt_rxsem d) (rx_cnt d) (alloc d) (samprate d) (bpsamp d)
    (nchannels d) (volume d) (balance d) v (running d) (paused d)
    (mute d) (terminating d).
Definition set_stream (d : es8388char_dev_s) (rate nch bps : Z)
  : es8388char_dev_s :=
  mk_dev (rxedq d) (cnt_rxsem d) (rx_cnt d) (alloc d) rate bps
    nch (volume d) (balance d) (micgain d) (running d) (paused d)
    (mute d) (terminating d).

Definition set_priv (w : world) (d : es8388char_dev_s) : world :=
  mk_world d (tx_inflight w) (rx_inflight w) (next_apb w).
Definition set_tx_inflight (w : world) (l : list buf) : world :=
  mk_world (priv w) l (rx_inflight w) (next_apb w).
Definition set_rx_inflight (w : world) (l : list buf) : world :=
  mk_world (priv w) (tx_inflight w) l (next_apb w).

(** ** es8388char_register: the freshly initialised device
    ([kmm_zalloc], then the [sem_init]s, [dq_init] and [rx_cnt = 0]). *)
Definition es8388char_register_priv : es8388char_dev_s :=
  mk_dev [] 0 0 ES8388CHAR_TXBUF_CNT 0 0 0 0 0 0 false false false false.

Definition init_world : world := mk_world es8388char_register_priv [] [] 0.

(** ** Configuration *)

(** [es8388char_setbitrate]: the hardware ratio code of the stored rate;
    [None] is the [default:] branch ("Not supported sample rate"), which
    returns before the codec is programmed.  The register writes themselves
    touch no field of the device. *)
Definition es8388char_setbitrate (d : es8388char_dev_s) : option Z :=
  let r := samprate d in
  if r =? AUDIO_SAMP_RATE_8K then Some 10
  else if r =? AUDIO_SAMP_RATE_12K then Some 7
  else if r =? AUDIO_SAMP_RATE_16K then Some 6
  else if r =? AUDIO_SAMP_RATE_24K then Some 4
  else if r =? AUDIO_SAMP_RATE_32K then Some 3
  else if r =? AUDIO_SAMP_RATE_48K then Some 2
  else if r =? AUDIO_SAMP_RATE_96K then Some 0
  else None.

(** [es8388char_configure]: the new device state and [ret].
    [es8388char_setvolume] and [es8388char_setdatawidth] change no field of
    the device.  [es8388char_setmic], called after an accepted MICGAIN,
    also does [sem_post(&priv->alloc)]; that post is left out here and
    modelled by [es8388char_configure_sem] below. *)
Definition es8388char_configure (d : es8388char_dev_s) (caps : audio_caps_s)
  : es8388char_dev_s * Z :=
  if ac_type caps =? AUDIO_TYPE_FEATURE then
    let fu := ac_format_hw caps in
    if fu =? AUDIO_FU_VOLUME then
      let v := ac_controls_hw caps 0 in
      ((if v <=? 1000 then set_volume d (to_uint8 (63 - Z.quot (63 * v) 1000))
        else d), OK)
    else if fu =? AUDIO_FU_MUTE then
      (set_mute d (negb (ac_controls_b caps 0 =? 0)), OK)
    else if fu =? AUDIO_FU_BALANCE then
      let bal := to_int16 (ac_controls_hw caps 0) in
      ((if Z.abs bal <=? 1000 then set_balance d bal else d), OK)
    else if fu =? AUDIO_FU_MICGAIN then
      let gain := to_int16 (ac_controls_hw caps 0) in
      ((if (-16 <=? gain) && (gain <=? 53) then set_micgain d gain else d), OK)
    else (d, - ENOTTY)
  else if ac_type caps =? AUDIO_TYPE_OUTPUT then
    if negb (ac_channels caps =? 2) then (d, - ERANGE)
    else
      (set_stream d (ac_controls_hw caps 0) (ac_channels caps)
         (ac_controls_b caps 2), OK)
  else if ac_type caps =? AUDIO_TYPE_PROCESSING then (d, OK)
  else (d, OK).

(** [es8388char_start] and [es8388char_stop]. *)
Definition es8388char_start (d : es8388char_dev_s) (caps : audio_caps_s) : Z :=
  OK.
Definition es8388char_stop (d : es8388char_dev_s) (caps : audio_caps_s) : Z :=
  OK.

(** ** Collaborators outside this file *)

(** The return code of the next external call, in call order; a call with
    no code supplied succeeds. *)
Definition ext_call (ext : list Z) : Z * list Z :=
  match ext with
  | [] => (OK, [])
  | r :: t => (r, t)
  end.

(** Modelled from the spec: [apb_alloc] (the audio buffer pool, not under
    src/) either fails with a negative code or returns a fresh buffer. *)
Definition apb_alloc (w : world) (ext : list Z)
  : Z * option (buf * world) * list Z :=
  let '(r, ext') := ext_call ext in
  if r <? 0 then (r, None, ext')
  else (r, Some (next_apb w,
                 mk_world (priv w) (tx_inflight w) (rx_inflight w)
                   (S (next_apb w))), ext').

(** ** Completion callbacks *)

(** [es8388char_rxcallback]: [dq_addlast] under [rxsem], then
    [sem_post(&priv->cnt_rxsem)]. *)
Definition es8388char_rxcallback (w : world) (apb : buf) : world :=
  let d := priv w in
  set_priv w (set_rxq d (rxedq d ++ [apb]) (cnt_rxsem d + 1)).

(** [es8388char_txcallback]: [apb_free(apb)], then [sem_post(&priv->alloc)]. *)
Definition es8388char_txcallback (w : world) (apb : buf) : world :=
  let d := priv w in
  set_priv w (set_alloc d (alloc d + 1)).

(** ** es8388char_ioctl *)

(** What the caller gets back through [arg]: the buffer [apb_alloc] stored,
    or the [u.pBuffer] DEQUEUEBUFFER stored ([None] is NULL). *)
Inductive ioctl_out :=
| ONone
| OAlloc (b : buf)
| ODeq (b : option buf).

(** Where a caller sleeps in a [sem_wait]. *)
Inductive cont :=
| KAlloc      (* sem_wait(&priv->alloc) in ALLOCBUFFER *)
| KDequeue.   (* sem_wait(&priv->cnt_rxsem) in DEQUEUEBUFFER *)

Inductive outcome :=
| Done (w : world) (ret : Z) (o : ioctl_out)
| Blocked (w : world) (k : cont).

(** ALLOCBUFFER after [sem_wait(&priv->alloc)] returned. *)
Definition allocbuffer_after_wait (w : world) (ext : list Z) : outcome :=
  match apb_alloc w ext with
  | (r, Some (b, w'), _) => Done w' r (OAlloc b)
  | (r, None, _) => Done w r ONone
  end.

Definition ioctl_allocbuffer (w : world) (ext : list Z) : outcome :=
  let d := priv w in
  if 0 <? alloc d then
    allocbuffer_after_wait (set_priv w (set_alloc d (alloc d - 1))) ext
  else Blocked w KAlloc.

Definition ioctl_freebuffer (a : audio_abi) (w : world) : outcome :=
  let d := priv w in
  Done (set_priv w (set_rx_cnt d (rx_cnt d - 1))) (sizeof_audio_buf_desc_s a)
    ONone.

Definition ioctl_enqueuebuffer (w : world) (ext : list Z) (apb : buf)
  : outcome :=
  let '(r, _) := ext_call ext in
  if r <? 0 then Done w r ONone
  else Done (set_tx_inflight w (tx_inflight w ++ [apb])) r ONone.

(** The pre-posting loop of DEQUEUEBUFFER:
    [while (priv->rx_cnt < ES8388CHAR_RXBUF_CNT)]; returns the state and
    [ret].  [fuel] bounds the iterations, each of which either breaks or
    increments [rx_cnt]. *)
Fixpoint dequeue_prepost (fuel : nat) (w : world) (ext : list Z) (ret : Z)
  : world * Z :=
  match fuel with
  | O => (w, ret)
  | S n =>
    if rx_cnt (priv w) <? ES8388CHAR_RXBUF_CNT then
      match apb_alloc w ext with
      | (r, None, _) => (w, r)
      | (_, Some (apb, w1), ext1) =>
        let '(r2, ext2) := ext_call ext1 in
        if r2 <? 0 then (w1, r2)                    (* apb_free(apb) *)
        else
          let w2 := set_rx_inflight w1 (rx_inflight w1 ++ [apb]) in
          dequeue_prepost n
            (set_priv w2 (set_rx_cnt (priv w2) (rx_cnt (priv w2) + 1)))
            ext2 r2
      end
    else (w, ret)
  end.

(** [sem_wait(&priv->cnt_rxsem)], then [dq_remfirst] under [rxsem]. *)
Definition dequeue_take (w : world) : outcome :=
  let d := priv w in
  if 0 <? cnt_rxsem d then
    Done (set_priv w (set_rxq d (tl (rxedq d)) (cnt_rxsem d - 1))) 0
      (ODeq (hd_error (rxedq d)))
  else Blocked w KDequeue.

Definition ioctl_dequeuebuffer (w : world) (ext : list Z) : outcome :=
  let '(w', ret) :=
    dequeue_prepost (Z.to_nat (ES8388CHAR_RXBUF_CNT - rx_cnt (priv w))) w ext 0
  in
  if 0 <=? ret then dequeue_take w' else Done w' ret (ODeq None).

(** The [switch (cmd)] of [es8388char_ioctl]. *)
Inductive ioc :=
| IocAlloc | IocFree | IocEnqueue | IocDequeue | IocConfigure | IocStart
| IocStop | IocOther.

Definition decode (a : audio_abi) (cmd : Z) : ioc :=
  if cmd =? AUDIOIOC_ALLOCBUFFER a then IocAlloc
  else if cmd =? AUDIOIOC_FREEBUFFER a then IocFree
  else if cmd =? AUDIOIOC_ENQUEUEBUFFER a then IocEnqueue
  else if cmd =? AUDIOIOC_DEQUEUEBUFFER a then IocDequeue
  else if cmd =? AUDIOIOC_CONFIGURE a then IocConfigure
  else if cmd =? AUDIOIOC_START a then IocStart
  else if cmd =? AUDIOIOC_STOP a then IocStop
  else IocOther.

Definition es8388char_ioctl (a : audio_abi) (w : world) (ext : list Z)
  (cmd : Z) (arg : ioctl_arg) : outcome :=
  match decode a cmd with
  | IocAlloc => ioctl_allocbuffer w ext
  | IocFree => ioctl_freebuffer a w
  | IocEnqueue => ioctl_enqueuebuffer w ext (a_pBuffer arg)
  | IocDequeue => ioctl_dequeuebuffer w ext
  | IocConfigure =>
    let '(d', r) := es8388char_configure (priv w) (a_caps arg) in
    Done (set_priv w d') r ONone
  | IocStart => Done w (es8388char_start (priv w) (a_caps arg)) ONone
  | IocStop => Done w (es8388char_stop (priv w) (a_caps arg)) ONone
  | IocOther => Done w 0 ONone                     (* default: ret = 0 *)
  end.

(** A sleeping caller continues once the semaphore is positive. *)
Definition resume (w : world) (ext : list Z) (k : cont) : outcome :=
  match k with
  | KAlloc => ioctl_allocbuffer w ext
  | KDequeue => dequeue_take w
  end.

(** ** The system: the driver, one caller thread and the I2S lower half
    calling back accepted requests, interleaved. *)

Definition sys := (world * option cont)%type.

Inductive label :=
| LCall (k : ioc) (ret : Z) (o : ioctl_out)
| LBlock (k : ioc)
| LResume (k : cont) (ret : Z) (o : ioctl_out)
| LTxDone (b : buf)
| LRxDone (b : buf).

Inductive step (a : audio_abi) : sys -> label -> sys -> Prop :=
| st_call w ext cmd arg w' r o :
    es8388char_ioctl a w ext cmd arg = Done w' r o ->
    step a (w, None) (LCall (decode a cmd) r o) (w', None)
| st_block w ext cmd arg w' k :
    es8388char_ioctl a w ext cmd arg = Blocked w' k ->
    step a (w, None) (LBlock (decode a cmd)) (w', Some k)
| st_resume w ext k w' r o :
    resume w ext k = Done w' r o ->
    step a (w, Some k) (LResume k r o) (w', None)
| st_txdone w c l1 b l2 :
    tx_inflight w = l1 ++ b :: l2 ->
    step a (w, c) (LTxDone b)
      (es8388char_txcallback (set_tx_inflight w (l1 ++ l2)) b, c)
| st_rxdone w c l1 b l2 :
    rx_inflight w = l1 ++ b :: l2 ->
    step a (w, c) (LRxDone b)
      (es8388char_rxcallback (set_rx_inflight w (l1 ++ l2)) b, c).

(** Traces from the freshly registered device, oldest label first. *)
Inductive reach (a : audio_abi) : list label -> sys -> Prop :=
| reach_init : reach a [] (init_world, None)
| reach_step tr s l s' :
    reach a tr s -> step a s l s' -> reach a (tr ++ [l]) s'.

(** * Properties *)

(** ** Concrete runs *)

Definition caps_volume (v : Z) : audio_caps_s :=
  mk_caps AUDIO_TYPE_FEATURE 0 AUDIO_FU_VOLUME v.
Definition caps_micgain (hw0 : Z) : audio_caps_s :=
  mk_caps AUDIO_TYPE_FEATURE 0 AUDIO_FU_MICGAIN hw0.
(** Output format: [hw[0]] is the rate, [b[2]] the sample width. *)
Definition caps_output (nch rate bps : Z) : audio_caps_s :=
  mk_caps AUDIO_TYPE_OUTPUT nch 0 (rate + Z.shiftl bps 16).

Example configure_volume_500 :
  volume (fst (es8388char_configure es8388char_register_priv
                 (caps_volume 500))) = 32.
Proof. reflexivity. Qed.

Example configure_volume_1001 :
  es8388char_configure es8388char_register_priv (caps_volume 1001)
  = (es8388char_register_priv, OK).
Proof. reflexivity. Qed.

Example configure_micgain_minus16 :
  micgain (fst (es8388char_configure es8388char_register_priv
                  (caps_micgain 65520))) = -16.
Proof. reflexivity. Qed.

Example configure_output_stereo :
  let d := fst (es8388char_configure es8388char_register_priv
                  (caps_output 2 48000 16)) in
  (samprate d, nchannels d, bpsamp d, es8388char_setbitrate d)
  = (48000, 2, 16, Some 2).
Proof. reflexivity. Qed.

(** ** Reading the [ac_controls] union *)

Lemma ac_controls_hw0_range (c : audio_caps_s) :
  0 <= ac_controls_hw c 0 <= 65535.
Proof.
  unfold ac_controls_hw.
  set (x := Z.shiftr (ac_controls_w c) (16 * 0)).
  assert (E : Z.land x 65535 = x mod 65536)
    by (change 65535 with (Z.ones 16); apply Z.land_ones; lia).
  rewrite E. pose proof (Z.mod_pos_bound x 65536). lia.
Qed.

Lemma to_int16_range (x : Z) : -32768 <= to_int16 x <= 32767.
Proof.
  unfold to_int16.
  pose proof (Z.mod_pos_bound x 65536).
  destruct (x mod 65536 <? 32768) eqn:E;
    [apply Z.ltb_lt in E | apply Z.ltb_ge in E]; lia.
Qed.

(** ** C6: volume *)

(** C6. Configure(volume, v), with [v] the 16-bit [hw[0]]: the call returns
    OK; for [v > 1000] the device state is unchanged; for [0 <= v <= 1000]
    the only change is [volume := 63 - 63 * v / 1000]. *)
Theorem configure_volume_scaling (d : es8388char_dev_s) (caps : audio_caps_s) :
  ac_type caps = AUDIO_TYPE_FEATURE ->
  ac_format_hw caps = AUDIO_FU_VOLUME ->
  let v := ac_controls_hw caps 0 in
  snd (es8388char_configure d caps) = OK /\
  (1000 < v -> fst (es8388char_configure d caps) = d) /\
  (0 <= v <= 1000 ->
   fst (es8388char_configure d caps) = set_volume d (63 - 63 * v / 1000)).
Proof.
  intros Ht Hf v.
  pose proof (ac_controls_hw0_range caps) as Hr.
  unfold es8388char_configure. rewrite Ht, Hf, !Z.eqb_refl.
  cbv zeta. fold v in Hr |- *. cbn [fst snd].
  destruct (v <=? 1000) eqn:E;
    [apply Z.leb_le in E | apply Z.leb_gt in E];
    repeat split; try reflexivity; intros; try lia.
  rewrite Z.quot_div_nonneg by lia.
  unfold to_uint8. f_equal.
  assert (0 <= 63 * v / 1000 <= 63).
  { split. apply Z.div_pos; lia.
    apply Z.div_le_upper_bound; lia. }
  apply Z.mod_small. lia.
Qed.

Lemma configure_volume_scaling_witness :
  ac_type (caps_volume 1000) = AUDIO_TYPE_FEATURE /\
  ac_format_hw (caps_volume 1000) = AUDIO_FU_VOLUME /\
  fst (es8388char_configure es8388char_register_priv (caps_volume 1000))
  = set_volume es8388char_register_priv 0.
Proof.
  split; [reflexivity | split; [reflexivity |]].
  destruct (configure_volume_scaling es8388char_register_priv (caps_volume 1000)
              eq_refl eq_refl) as [_ [_ H]].
  etransitivity; [apply H; split; vm_compute; discriminate | reflexivity].
Defined.

(** ** C7: mic gain *)

(** C7. Configure(micGain, g), with [g] the [int16_t] read from [hw[0]]:
    the call returns OK; for [g] in [-16, 53] the only change is
    [micgain := g]; outside that range the device state is unchanged. *)
Theorem configure_micgain_range (d : es8388char_dev_s) (caps : audio_caps_s) :
  ac_type caps = AUDIO_TYPE_FEATURE ->
  ac_format_hw caps = AUDIO_FU_MICGAIN ->
  let g := to_int16 (ac_controls_hw caps 0) in
  snd (es8388char_configure d caps) = OK /\
  (-16 <= g <= 53 -> fst (es8388char_configure d caps) = set_micgain d g) /\
  (~ (-16 <= g <= 53) -> fst (es8388char_configure d caps) = d).
Proof.
  intros Ht Hf g.
  unfold es8388char_configure. rewrite Ht, Hf, Z.eqb_refl.
  change (AUDIO_FU_MICGAIN =? AUDIO_FU_VOLUME) with false.
  change (AUDIO_FU_MICGAIN =? AUDIO_FU_MUTE) with false.
  change (AUDIO_FU_MICGAIN =? AUDIO_FU_BALANCE) with false.
  rewrite Z.eqb_refl. cbv zeta. fold g. cbn [fst snd].
  destruct ((-16 <=? g) && (g <=? 53)) eqn:E.
  - apply andb_true_iff in E as [E1 E2].
    apply Z.leb_le in E1. apply Z.leb_le in E2.
    split; [reflexivity | split; intros H; [reflexivity | lia]].
  - split; [reflexivity | split; intros H; [| reflexivity]].
    exfalso. rewrite (proj2 (Z.leb_le _ _) (proj1 H)),
      (proj2 (Z.leb_le _ _) (proj2 H)) in E. discriminate.
Qed.

(** The scenario of the spec: gain 0, then a request for 60. *)
Lemma configure_micgain_range_witness :
  let d := set_micgain es8388char_register_priv 0 in
  ac_type (caps_micgain 60) = AUDIO_TYPE_FEATURE /\
  ac_format_hw (caps_micgain 60) = AUDIO_FU_MICGAIN /\
  fst (es8388char_configure d (caps_micgain 60)) = d /\
  micgain (fst (es8388char_configure d (caps_micgain 60))) = 0.
Proof.
  intros d.
  destruct (configure_micgain_range d (caps_micgain 60) eq_refl eq_refl)
    as [_ [_ H]].
  assert (Hn : ~ (-16 <= to_int16 (ac_controls_hw (caps_micgain 60) 0) <= 53)).
  { vm_compute. intros [_ C]. apply C. reflexivity. }
  split; [reflexivity | split; [reflexivity | split]].
  - exact (H Hn).
  - rewrite (H Hn). reflexivity.
Defined.

(** ** C8: channel count *)

(** C8. Configure of the output format with a channel count other than 2
    returns [-ERANGE] (Unsupported) and leaves every field of the device
    unchanged. *)
Theorem configure_output_channels_rejected (d : es8388char_dev_s)
  (caps : audio_caps_s) :
  ac_type caps = AUDIO_TYPE_OUTPUT ->
  ac_channels caps <> 2 ->
  es8388char_configure d caps = (d, - ERANGE).
Proof.
  intros Ht Hc.
  unfold es8388char_configure. rewrite Ht.
  change (AUDIO_TYPE_OUTPUT =? AUDIO_TYPE_FEATURE) with false.
  rewrite Z.eqb_refl.
  apply Z.eqb_neq in Hc. rewrite Hc. reflexivity.
Qed.

Lemma configure_output_channels_rejected_witness :
  ac_type (caps_output 1 48000 16) = AUDIO_TYPE_OUTPUT /\
  ac_channels (caps_output 1 48000 16) <> 2 /\
  es8388char_configure es8388char_register_priv (caps_output 1 48000 16)
  = (es8388char_register_priv, - ERANGE).
Proof.
  split; [reflexivity | split; [discriminate |]].
  apply configure_output_channels_rejected; [reflexivity | discriminate].
Defined.

(** ** C4: sample rate *)

(** With two channels, the output format is stored whatever the rate; the
    rate only decides whether [es8388char_setbitrate] programs the codec. *)
Lemma configure_output_stereo_stored (d : es8388char_dev_s)
  (caps : audio_caps_s) :
  ac_type caps = AUDIO_TYPE_OUTPUT ->
  ac_channels caps = 2 ->
  es8388char_configure d caps
  = (set_stream d (ac_controls_hw caps 0) 2 (ac_controls_b caps 2), OK).
Proof.
  intros Ht Hc.
  unfold es8388char_configure. rewrite Ht.
  change (AUDIO_TYPE_OUTPUT =? AUDIO_TYPE_FEATURE) with false.
  rewrite Z.eqb_refl, Hc. reflexivity.
Qed.

(** C4 (code defect). A stereo output format at 44100 Hz, a rate outside
    {8K, 12K, 16K, 24K, 32K, 48K, 96K}, is accepted: the call returns OK,
    the stored sample rate becomes 44100, and only the codec programming in
    [es8388char_setbitrate] is skipped. *)
Theorem configure_unsupported_rate_accepted :
  let r := es8388char_configure es8388char_register_priv
             (caps_output 2 44100 16) in
  snd r = OK /\ samprate (fst r) = 44100 /\
  es8388char_setbitrate (fst r) = None.
Proof.
  rewrite configure_output_stereo_stored by reflexivity.
  repeat split; reflexivity.
Qed.

(** ** The dispatcher *)

Definition ENOMEM : Z := 12.
Definition EIO : Z := 5.

(** An assignment of distinct command codes, for concrete runs. *)
Definition example_abi : audio_abi :=
  {| AUDIOIOC_ALLOCBUFFER := 4107; AUDIOIOC_FREEBUFFER := 4108;
     AUDIOIOC_ENQUEUEBUFFER := 4109; AUDIOIOC_DEQUEUEBUFFER := 4113;
     AUDIOIOC_CONFIGURE := 4100; AUDIOIOC_START := 4102;
     AUDIOIOC_STOP := 4103; sizeof_audio_buf_desc_s := 16 |}.

Definition arg_buf (b : buf) : ioctl_arg :=
  mk_arg 0 b (mk_caps 0 0 0 0).
Definition arg_caps (c : audio_caps_s) : ioctl_arg := mk_arg 0 0%nat c.

Lemma example_abi_ok : abi_ok example_abi.
Proof.
  unfold abi_ok, ioctl_codes; cbn.
  repeat constructor; cbn; intuition discriminate.
Qed.

Ltac abi_neqs H :=
  unfold abi_ok, ioctl_codes in H;
  repeat match type of H with
  | NoDup (_ :: _) =>
    let Hn := fresh "Hn" in
    apply NoDup_cons_iff in H; destruct H as [Hn H]; cbn [In] in Hn
  end.

Ltac decode_tac :=
  unfold decode;
  repeat first
    [ rewrite Z.eqb_refl
    | rewrite (proj2 (Z.eqb_neq _ _)) by (intro; intuition congruence) ].

Lemma decode_start (a : audio_abi) :
  abi_ok a -> decode a (AUDIOIOC_START a) = IocStart.
Proof. intros H. abi_neqs H. decode_tac. reflexivity. Qed.

Lemma decode_stop (a : audio_abi) :
  abi_ok a -> decode a (AUDIOIOC_STOP a) = IocStop.
Proof. intros H. abi_neqs H. decode_tac. reflexivity. Qed.

Lemma decode_other (a : audio_abi) (cmd : Z) :
  ~ In cmd (ioctl_codes a) -> decode a cmd = IocOther.
Proof.
  unfold ioctl_codes. cbn [In]. intros H.
  unfold decode.
  repeat rewrite (proj2 (Z.eqb_neq _ _)) by (intro; apply H; intuition congruence).
  reflexivity.
Qed.

(** C10. A command code outside the seven cases of the [switch] falls into
    [default:]: the device is unchanged and the call returns 0. *)
Theorem ioctl_unknown_command_accepted (a : audio_abi) (w : world)
  (ext : list Z) (cmd : Z) (arg : ioctl_arg) :
  ~ In cmd (ioctl_codes a) ->
  es8388char_ioctl a w ext cmd arg = Done w 0 ONone.
Proof.
  intros H. unfold es8388char_ioctl. rewrite (decode_other a cmd H).
  reflexivity.
Qed.

Lemma ioctl_unknown_command_accepted_witness :
  ~ In 4200 (ioctl_codes example_abi) /\
  es8388char_ioctl example_abi init_world [] 4200 (arg_buf 0%nat)
  = Done init_world 0 ONone.
Proof.
  assert (H : ~ In 4200 (ioctl_codes example_abi)).
  { cbn. intuition discriminate. }
  split; [exact H |].
  apply ioctl_unknown_command_accepted. exact H.
Defined.

(** ** C5: Start and Stop *)

(** C5, counterexample: on the freshly registered device, before any
    Configure, Start returns OK; Stop, then Stop again, both return OK. *)
Lemma start_stop_not_enforced_counterexample :
  es8388char_ioctl example_abi init_world [] (AUDIOIOC_START example_abi)
    (arg_caps (mk_caps 0 0 0 0)) = Done init_world OK ONone /\
  es8388char_ioctl example_abi init_world [] (AUDIOIOC_STOP example_abi)
    (arg_caps (mk_caps 0 0 0 0)) = Done init_world OK ONone.
Proof. split; reflexivity. Qed.

(** C5, as the code does it: Start and Stop return OK from every state and
    change nothing; no transition is checked. *)
Theorem start_stop_always_ok (a : audio_abi) (w : world) (ext : list Z)
  (arg : ioctl_arg) :
  abi_ok a ->
  es8388char_ioctl a w ext (AUDIOIOC_START a) arg = Done w OK ONone /\
  es8388char_ioctl a w ext (AUDIOIOC_STOP a) arg = Done w OK ONone.
Proof.
  intros H. unfold es8388char_ioctl.
  rewrite (decode_start a H), (decode_stop a H). split; reflexivity.
Qed.

Lemma start_stop_always_ok_witness :
  abi_ok example_abi /\
  es8388char_ioctl example_abi init_world [] (AUDIOIOC_START example_abi)
    (arg_caps (mk_caps 0 0 0 0)) = Done init_world OK ONone.
Proof.
  split; [exact example_abi_ok |].
  exact (proj1 (start_stop_always_ok example_abi init_world []
                  (arg_caps (mk_caps 0 0 0 0)) example_abi_ok)).
Defined.

(** ** Effects of each operation on the gate and the receive queue *)

(** The receive queue and the admission gate of a world. *)
Definition gate_q (w : world) : list buf * Z :=
  (rxedq (priv w), alloc (priv w)).

Lemma configure_gate_q (d : es8388char_dev_s) (caps : audio_caps_s) :
  rxedq (fst (es8388char_configure d caps)) = rxedq d /\
  alloc (fst (es8388char_configure d caps)) = alloc d.
Proof.
  unfold es8388char_configure.
  repeat match goal with
  | |- context [if ?c then _ else _] => destruct c
  end; split; reflexivity.
Qed.

Lemma apb_alloc_gate_q (w : world) (ext : list Z) r b w' ext' :
  apb_alloc w ext = (r, Some (b, w'), ext') -> gate_q w' = gate_q w.
Proof.
  unfold apb_alloc. destruct (ext_call ext) as [r0 e0].
  destruct (r0 <? 0); intros E; inversion E; reflexivity.
Qed.

Lemma dequeue_prepost_gate_q (n : nat) (w : world) (ext : list Z) (ret : Z) :
  gate_q (fst (dequeue_prepost n w ext ret)) = gate_q w.
Proof.
  revert w ext ret. induction n as [| n IH]; intros w ext ret; cbn [dequeue_prepost].
  - reflexivity.
  - destruct (rx_cnt (priv w) <? ES8388CHAR_RXBUF_CNT); [| reflexivity].
    destruct (apb_alloc w ext) as [[r [[b w1] |]] ext1] eqn:Ea; [| reflexivity].
    apply apb_alloc_gate_q in Ea.
    destruct (ext_call ext1) as [r2 ext2].
    destruct (r2 <? 0); [exact Ea |].
    rewrite IH. exact Ea.
Qed.

(** The buffer a call hands to the caller from the receive queue. *)
Definition taken (o : ioctl_out) : list buf :=
  match o with
  | ODeq (Some b) => [b]
  | _ => []
  end.

Lemma dequeue_take_done (w : world) w' r o :
  dequeue_take w = Done w' r o ->
  rxedq (priv w) = taken o ++ rxedq (priv w') /\ alloc (priv w') = alloc (priv w).
Proof.
  unfold dequeue_take. destruct (0 <? cnt_rxsem (priv w)); intros E;
    inversion E; subst; clear E.
  cbn. destruct (rxedq (priv w)); split; reflexivity.
Qed.

Lemma dequeue_take_blocked (w : world) w' k :
  dequeue_take w = Blocked w' k -> w' = w.
Proof.
  unfold dequeue_take. destruct (0 <? cnt_rxsem (priv w)); intros E;
    inversion E; reflexivity.
Qed.

Lemma allocbuffer_done (w : world) ext w' r o :
  ioctl_allocbuffer w ext = Done w' r o ->
  rxedq (priv w) = taken o ++ rxedq (priv w') /\
  0 < alloc (priv w) /\ alloc (priv w') = alloc (priv w) - 1.
Proof.
  unfold ioctl_allocbuffer, allocbuffer_after_wait.
  destruct (0 <? alloc (priv w)) eqn:Ea; [| discriminate].
  apply Z.ltb_lt in Ea.
  destruct (apb_alloc _ ext) as [[r0 [[b w1] |]] e1] eqn:E;
    intros D; inversion D; subst; clear D.
  - apply apb_alloc_gate_q in E. unfold gate_q in E. inversion E.
    cbn in *. rewrite H0, H1. auto.
  - cbn. auto.
Qed.

Lemma allocbuffer_blocked (w : world) ext w' k :
  ioctl_allocbuffer w ext = Blocked w' k -> w' = w /\ alloc (priv w) <= 0.
Proof.
  unfold ioctl_allocbuffer, allocbuffer_after_wait.
  destruct (0 <? alloc (priv w)) eqn:Ea.
  - destruct (apb_alloc _ ext) as [[r0 [[b w1] |]] e1]; intros E;
      discriminate E.
  - apply Z.ltb_ge in Ea. intros E; inversion E; subst; auto.
Qed.

(** The gate-count effect of a command kind. *)
Definition alloc_effect (k : ioc) (w w' : world) : Prop :=
  match k with
  | IocAlloc => 0 < alloc (priv w) /\ alloc (priv w') = alloc (priv w) - 1
  | _ => alloc (priv w') = alloc (priv w)
  end.

(** Every call that returns: the receive queue loses exactly the buffer
    handed out, and the gate loses one slot exactly when ALLOCBUFFER got
    past its [sem_wait], which it does only on a positive count. *)
Lemma ioctl_done_effect (a : audio_abi) (w : world) ext cmd arg w' r o :
  es8388char_ioctl a w ext cmd arg = Done w' r o ->
  rxedq (priv w) = taken o ++ rxedq (priv w') /\
  alloc_effect (decode a cmd) w w'.
Proof.
  unfold es8388char_ioctl, alloc_effect.
  destruct (decode a cmd); intros E.
  - apply allocbuffer_done in E. tauto.
  - inversion E; subst. split; reflexivity.
  - unfold ioctl_enqueuebuffer in E. destruct (ext_call ext) as [r0 e0].
    destruct (r0 <? 0); inversion E; subst; split; reflexivity.
  - unfold ioctl_dequeuebuffer in E.
    pose proof (dequeue_prepost_gate_q
                  (Z.to_nat (ES8388CHAR_RXBUF_CNT - rx_cnt (priv w))) w ext 0)
      as G.
    destruct (dequeue_prepost _ w ext 0) as [w1 ret].
    unfold gate_q in G. cbn in G. inversion G as [[G1 G2]].
    destruct (0 <=? ret).
    + apply dequeue_take_done in E. exact E.
    + inversion E; subst. split; reflexivity.
  - destruct (es8388char_configure (priv w) (a_caps arg)) as [d' r0] eqn:C.
    pose proof (configure_gate_q (priv w) (a_caps arg)) as [C1 C2].
    rewrite C in C1, C2. cbn in C1, C2.
    inversion E; subst. cbn. rewrite C1, C2. split; reflexivity.
  - inversion E; subst. split; reflexivity.
  - inversion E; subst. split; reflexivity.
  - inversion E; subst. split; reflexivity.
Qed.

(** A call that blocks has changed neither the receive queue nor the gate;
    if it is ALLOCBUFFER, it has changed nothing and the gate is at 0. *)
Lemma ioctl_blocked_effect (a : audio_abi) (w : world) ext cmd arg w' k :
  es8388char_ioctl a w ext cmd arg = Blocked w' k ->
  gate_q w' = gate_q w.
Proof.
  unfold es8388char_ioctl. destruct (decode a cmd); intros E.
  - apply allocbuffer_blocked in E. destruct E as [-> _]. reflexivity.
  - discriminate.
  - unfold ioctl_enqueuebuffer in E. destruct (ext_call ext) as [r0 e0].
    destruct (r0 <? 0); discriminate.
  - unfold ioctl_dequeuebuffer in E.
    pose proof (dequeue_prepost_gate_q
                  (Z.to_nat (ES8388CHAR_RXBUF_CNT - rx_cnt (priv w))) w ext 0)
      as G.
    destruct (dequeue_prepost _ w ext 0) as [w1 ret].
    destruct (0 <=? ret); [| discriminate].
    apply dequeue_take_blocked in E. subst. exact G.
  - destruct (es8388char_configure (priv w) (a_caps arg)); discriminate.
  - discriminate.
  - discriminate.
  - discriminate.
Qed.

(** ** Executable runs of the system *)

Inductive action :=
| ACall (ext : list Z) (cmd : Z) (arg : ioctl_arg)
| AResume (ext : list Z)
| ATxDone (i : nat)      (* the lower half calls back the i-th pending send *)
| ARxDone (i : nat).     (* the lower half calls back the i-th pending receive *)

Definition remove_nth (i : nat) (l : list buf) : list buf :=
  firstn i l ++ skipn (S i) l.

Definition exec_action (a : audio_abi) (s : sys) (act : action)
  : option (label * sys) :=
  let '(w, c) := s in
  match act, c with
  | ACall ext cmd arg, None =>
    match es8388char_ioctl a w ext cmd arg with
    | Done w' r o => Some (LCall (decode a cmd) r o, (w', None))
    | Blocked w' k => Some (LBlock (decode a cmd), (w', Some k))
    end
  | AResume ext, Some k =>
    match resume w ext k with
    | Done w' r o => Some (LResume k r o, (w', None))
    | Blocked _ _ => None
    end
  | ATxDone i, _ =>
    match nth_error (tx_inflight w) i with
    | Some b =>
      Some (LTxDone b,
            (es8388char_txcallback
               (set_tx_inflight w (remove_nth i (tx_inflight w))) b, c))
    | None => None
    end
  | ARxDone i, _ =>
    match nth_error (rx_inflight w) i with
    | Some b =>
      Some (LRxDone b,
            (es8388char_rxcallback
               (set_rx_inflight w (remove_nth i (rx_inflight w))) b, c))
    | None => None
    end
  | _, _ => None
  end.

Fixpoint run_from (a : audio_abi) (tr : list label) (s : sys)
  (acts : list action) : option (list label * sys) :=
  match acts with
  | [] => Some (tr, s)
  | act :: rest =>
    match exec_action a s act with
    | Some (l, s') => run_from a (tr ++ [l]) s' rest
    | None => None
    end
  end.

Definition run (a : audio_abi) (acts : list action)
  : option (list label * sys) :=
  run_from a [] (init_world, None) acts.

Lemma remove_nth_split (l : list buf) (i : nat) (b : buf) :
  nth_error l i = Some b -> l = firstn i l ++ b :: skipn (S i) l.
Proof.
  revert l. induction i as [| i IH]; intros [| x l] E; cbn in *;
    try discriminate.
  - inversion E. reflexivity.
  - f_equal. apply IH. exact E.
Qed.

Lemma exec_action_step (a : audio_abi) (s : sys) act l s' :
  exec_action a s act = Some (l, s') -> step a s l s'.
Proof.
  destruct s as [w c]. unfold exec_action.
  destruct act as [ext cmd arg | ext | i | i]; intros E.
  - destruct c; [discriminate |].
    destruct (es8388char_ioctl a w ext cmd arg) eqn:I; inversion E; subst.
    + eapply st_call. exact I.
    + eapply st_block. exact I.
  - destruct c as [k |]; [| discriminate].
    destruct (resume w ext k) eqn:R; inversion E; subst.
    eapply st_resume. exact R.
  - destruct (nth_error (tx_inflight w) i) as [b |] eqn:N; [| discriminate].
    inversion E; subst.
    apply st_txdone. apply remove_nth_split. exact N.
  - destruct (nth_error (rx_inflight w) i) as [b |] eqn:N; [| discriminate].
    inversion E; subst.
    apply st_rxdone. apply remove_nth_split. exact N.
Qed.

Lemma run_from_reach (a : audio_abi) acts :
  forall tr s tr' s',
  reach a tr s -> run_from a tr s acts = Some (tr', s') -> reach a tr' s'.
Proof.
  induction acts as [| act rest IH]; intros tr s tr' s' R E; cbn in E.
  - inversion E; subst. exact R.
  - destruct (exec_action a s act) as [[l s1] |] eqn:X; [| discriminate].
    apply (IH (tr ++ [l]) s1); [| exact E].
    eapply reach_step; [exact R |]. apply (exec_action_step a s act). exact X.
Qed.

Lemma run_reach (a : audio_abi) acts tr s :
  run a acts = Some (tr, s) -> reach a tr s.
Proof. apply run_from_reach. constructor. Qed.

(** ** Trace bookkeeping *)

Definition count (f : label -> Z) (tr : list label) : Z :=
  fold_right (fun l acc => f l + acc) 0 tr.

Lemma count_snoc f tr l : count f (tr ++ [l]) = count f tr + f l.
Proof.
  induction tr as [| x tr IH]; cbn; [lia |].
  unfold count in IH. rewrite IH. lia.
Qed.

(** Slot acquisitions: an ALLOCBUFFER that got past [sem_wait(&priv->alloc)]. *)
Definition acquires (l : label) : Z :=
  match l with
  | LCall IocAlloc _ _ => 1
  | LResume KAlloc _ _ => 1
  | _ => 0
  end.

(** Transmit completions: a call of [es8388char_txcallback]. *)
Definition tx_completes (l : label) : Z :=
  match l with
  | LTxDone _ => 1
  | _ => 0
  end.

(** Slots of the admission gate in use. *)
Definition in_use (s : sys) : Z := ES8388CHAR_TXBUF_CNT - alloc (priv (fst s)).

(** Buffers handed to the caller by DEQUEUEBUFFER, and buffers appended to
    [rxedq] by [es8388char_rxcallback], in trace order. *)
Definition delivered (tr : list label) : list buf :=
  flat_map (fun l => match l with
                     | LCall _ _ o => taken o
                     | LResume _ _ o => taken o
                     | _ => []
                     end) tr.

Definition rx_completed (tr : list label) : list buf :=
  flat_map (fun l => match l with
                     | LRxDone b => [b]
                     | _ => []
                     end) tr.

(** ** C3: the admission gate *)

(** C3, counterexample: a buffer obtained by ALLOCBUFFER and enqueued twice
    is called back twice, and each call of [es8388char_txcallback] posts
    [alloc]: the gate count rises to 9, one slot fewer than none in use. *)
Definition double_enqueue_run : list action :=
  [ACall [] (AUDIOIOC_ALLOCBUFFER example_abi) (arg_buf 0%nat);
   ACall [] (AUDIOIOC_ENQUEUEBUFFER example_abi) (arg_buf 0%nat);
   ACall [] (AUDIOIOC_ENQUEUEBUFFER example_abi) (arg_buf 0%nat);
   ATxDone 0; ATxDone 0].

Lemma admission_gate_negative_counterexample :
  exists tr s, reach example_abi tr s /\ in_use s = -1.
Proof.
  destruct (run example_abi double_enqueue_run) as [[tr s] |] eqn:E.
  - exists tr, s. split; [exact (run_reach _ _ _ _ E) |].
    vm_compute in E. inversion E. reflexivity.
  - vm_compute in E. discriminate.
Qed.

(** C3, as the code does it: on every reachable state the gate is never
    over-committed ([in_use <= 8]: ALLOCBUFFER sleeps at 0), and [in_use]
    is the number of slot acquisitions by ALLOCBUFFER (also those whose
    buffer allocation then failed) minus the number of transmit
    completions. *)
Theorem admission_gate_balance (a : audio_abi) (tr : list label) (s : sys) :
  reach a tr s ->
  in_use s <= ES8388CHAR_TXBUF_CNT /\
  in_use s = count acquires tr - count tx_completes tr.
Proof.
  unfold in_use, ES8388CHAR_TXBUF_CNT.
  induction 1 as [| tr s l s' R IH S].
  - cbn. lia.
  - rewrite !count_snoc. destruct IH as [IH1 IH2].
    inversion S; subst; cbn [fst] in *.
    + apply ioctl_done_effect in H as [_ H].
      unfold alloc_effect in H.
      destruct (decode a cmd); cbn [acquires tx_completes]; lia.
    + apply ioctl_blocked_effect in H. unfold gate_q in H.
      inversion H as [[H1 H2]]. cbn [acquires tx_completes]. rewrite H2. lia.
    + destruct k; cbn in H.
      * apply allocbuffer_done in H as (_ & H1 & H2).
        cbn [acquires tx_completes]. lia.
      * apply dequeue_take_done in H as [_ H2].
        cbn [acquires tx_completes]. lia.
    + cbn [acquires tx_completes es8388char_txcallback set_priv set_alloc
           set_tx_inflight priv alloc]. lia.
    + cbn [acquires tx_completes es8388char_rxcallback set_priv set_rxq
           set_rx_inflight priv alloc]. lia.
Qed.

Lemma admission_gate_balance_witness :
  exists tr s, reach example_abi tr s /\
  in_use s <= ES8388CHAR_TXBUF_CNT /\
  in_use s = count acquires tr - count tx_completes tr.
Proof.
  destruct (run example_abi double_enqueue_run) as [[tr s] |] eqn:E.
  - exists tr, s. pose proof (run_reach _ _ _ _ E) as R.
    split; [exact R | exact (admission_gate_balance example_abi tr s R)].
  - vm_compute in E. discriminate.
Defined.

(** ** C9: the receive queue is FIFO *)

(** C9. On every reachable state, the buffers handed out by DEQUEUEBUFFER,
    followed by those still in [rxedq], are exactly the buffers of the
    receive completions, in completion order: a buffer is never delivered
    before one that completed earlier. *)
Theorem rx_queue_fifo (a : audio_abi) (tr : list label) (s : sys) :
  reach a tr s ->
  delivered tr ++ rxedq (priv (fst s)) = rx_completed tr.
Proof.
  unfold delivered, rx_completed.
  induction 1 as [| tr s l s' R IH S].
  - reflexivity.
  - rewrite !flat_map_app.
    inversion S; subst; cbn [fst] in *.
    + apply ioctl_done_effect in H as [H _].
      cbn. rewrite !app_nil_r, <- app_assoc, <- H. exact IH.
    + apply ioctl_blocked_effect in H. unfold gate_q in H.
      inversion H as [[H1 H2]]. cbn. rewrite !app_nil_r, H1. exact IH.
    + destruct k; cbn in H.
      * apply allocbuffer_done in H as [H _].
        cbn. rewrite !app_nil_r, <- app_assoc, <- H. exact IH.
      * apply dequeue_take_done in H as [H _].
        cbn. rewrite !app_nil_r, <- app_assoc, <- H. exact IH.
    + cbn. rewrite !app_nil_r. exact IH.
    + cbn. rewrite app_nil_r, app_assoc, IH. reflexivity.
Qed.

(** One DEQUEUEBUFFER that pre-posts eight receives and sleeps, two receive
    completions, and the caller woken with the first. *)
Definition rx_run : list action :=
  [ACall [] (AUDIOIOC_DEQUEUEBUFFER example_abi) (arg_buf 0%nat);
   ARxDone 0; ARxDone 0; AResume []].

Lemma rx_queue_fifo_witness :
  exists tr s, reach example_abi tr s /\
  delivered tr = [0%nat] /\ rx_completed tr = [0%nat; 1%nat] /\
  delivered tr ++ rxedq (priv (fst s)) = rx_completed tr.
Proof.
  destruct (run example_abi rx_run) as [[tr s] |] eqn:E.
  - exists tr, s. pose proof (run_reach _ _ _ _ E) as R.
    split; [exact R |].
    split; [| split; [| exact (rx_queue_fifo example_abi tr s R)]];
      vm_compute in E; inversion E; reflexivity.
  - vm_compute in E. discriminate.
Defined.

(** ** C1 and C2: failure paths after [sem_wait(&priv->alloc)] *)

(** A failing [apb_alloc] keeps the slot taken by [sem_wait]. *)
Lemma allocbuffer_pool_failure (w : world) (r : Z) (ext : list Z) :
  0 < alloc (priv w) -> r < 0 ->
  ioctl_allocbuffer w (r :: ext)
  = Done (set_priv w (set_alloc (priv w) (alloc (priv w) - 1))) r ONone.
Proof.
  intros Ha Hr. unfold ioctl_allocbuffer, allocbuffer_after_wait, apb_alloc.
  apply Z.ltb_lt in Ha. apply Z.ltb_lt in Hr. rewrite Ha. cbn. rewrite Hr.
  reflexivity.
Qed.

(** A rejected [I2S_SEND] changes nothing: no slot is released and no
    callback is pending that would release it. *)
Lemma enqueue_rejected_unchanged (w : world) (r : Z) (ext : list Z) (b : buf) :
  r < 0 -> ioctl_enqueuebuffer w (r :: ext) b = Done w r ONone.
Proof.
  intros Hr. unfold ioctl_enqueuebuffer. cbn.
  apply Z.ltb_lt in Hr. rewrite Hr. reflexivity.
Qed.

(** With the gate at 0 and no send pending, a caller asleep in ALLOCBUFFER
    stays asleep: no step of the system posts [alloc]. *)
Lemma alloc_sleeper_stuck (a : audio_abi) (w : world) l s' :
  alloc (priv w) = 0 -> tx_inflight w = [] ->
  step a (w, Some KAlloc) l s' ->
  snd s' = Some KAlloc /\ alloc (priv (fst s')) = 0 /\
  tx_inflight (fst s') = [].
Proof.
  intros Ha Ht S. inversion S; subst.
  - match goal with H : resume _ _ _ = _ |- _ =>
      cbn in H; apply allocbuffer_done in H as (_ & H & _) end. lia.
  - match goal with H : tx_inflight _ = _ |- _ =>
      rewrite Ht in H; destruct l1; discriminate H end.
  - cbn. auto.
Qed.

(** C1 (code defect). On the fresh device, ALLOCBUFFER whose buffer
    allocation fails with [-ENOMEM] returns that error with the gate count
    down from 8 to 7: one slot is in use although no buffer exists. *)
Theorem allocbuffer_failure_leaks_slot :
  es8388char_ioctl example_abi init_world [- ENOMEM]
    (AUDIOIOC_ALLOCBUFFER example_abi) (arg_buf 0%nat)
  = Done (set_priv init_world (set_alloc es8388char_register_priv 7))
      (- ENOMEM) ONone /\
  in_use (set_priv init_world (set_alloc es8388char_register_priv 7), None)
  = 1.
Proof.
  split; [| reflexivity].
  unfold es8388char_ioctl.
  change (decode example_abi (AUDIOIOC_ALLOCBUFFER example_abi)) with IocAlloc.
  apply allocbuffer_pool_failure; reflexivity.
Qed.

(** The state after one successful ALLOCBUFFER on the fresh device. *)
Definition after_one_alloc : world :=
  mk_world (set_alloc es8388char_register_priv 7) [] [] 1.

Lemma after_one_alloc_reached :
  run example_abi [ACall [] (AUDIOIOC_ALLOCBUFFER example_abi) (arg_buf 0%nat)]
  = Some ([LCall IocAlloc 0 (OAlloc 0%nat)], (after_one_alloc, None)).
Proof. reflexivity. Qed.

(** C2 (code defect). After ALLOCBUFFER handed out buffer 0, ENQUEUEBUFFER
    of that buffer rejected by [I2S_SEND] with [-EIO] returns the error and
    leaves the world as it was: the slot stays in use and no send is pending
    whose completion would release it. *)
Theorem enqueue_rejection_keeps_slot :
  es8388char_ioctl example_abi after_one_alloc [- EIO]
    (AUDIOIOC_ENQUEUEBUFFER example_abi) (arg_buf 0%nat)
  = Done after_one_alloc (- EIO) ONone /\
  in_use (after_one_alloc, None) = 1 /\ tx_inflight after_one_alloc = [].
Proof.
  split; [| split; reflexivity].
  unfold es8388char_ioctl.
  change (decode example_abi (AUDIOIOC_ENQUEUEBUFFER example_abi))
    with IocEnqueue.
  apply enqueue_rejected_unchanged. reflexivity.
Qed.

(** * Further properties of the driver *)

Ltac dsimpl :=
  unfold set_alloc, set_rx_cnt, set_rxq, set_volume, set_mute, set_balance,
    set_micgain, set_stream, set_priv, set_tx_inflight, set_rx_inflight in *;
  cbn [priv tx_inflight rx_inflight next_apb rxedq cnt_rxsem rx_cnt alloc
       samprate bpsamp nchannels volume balance micgain running paused mute
       terminating fst snd] in *.

(** The bookkeeping the driver keeps consistent: [cnt_rxsem] counts the
    buffers of [rxedq], [rx_cnt] never exceeds [ES8388CHAR_RXBUF_CNT], and
    the control settings stay within the ranges [es8388char_configure]
    accepts. *)
Definition dev_inv (d : es8388char_dev_s) : Prop :=
  cnt_rxsem d = Z.of_nat (length (rxedq d)) /\
  rx_cnt d <= ES8388CHAR_RXBUF_CNT /\
  0 <= volume d <= 63 /\
  -1000 <= balance d <= 1000 /\
  -16 <= micgain d <= 53.

Definition outcome_world (o : outcome) : world :=
  match o with
  | Done w _ _ => w
  | Blocked w _ => w
  end.

Lemma register_dev_inv : dev_inv es8388char_register_priv.
Proof. unfold dev_inv, ES8388CHAR_RXBUF_CNT. cbn. lia. Qed.

Lemma configure_dev_inv (d : es8388char_dev_s) (caps : audio_caps_s) :
  dev_inv d -> dev_inv (fst (es8388char_configure d caps)).
Proof.
  unfold dev_inv, es8388char_configure. intros H.
  pose proof (ac_controls_hw0_range caps) as Hr.
  destruct (ac_type caps =? AUDIO_TYPE_FEATURE).
  - destruct (ac_format_hw caps =? AUDIO_FU_VOLUME).
    + destruct (ac_controls_hw caps 0 <=? 1000) eqn:E; dsimpl; [| exact H].
      apply Z.leb_le in E.
      set (v := ac_controls_hw caps 0) in *.
      rewrite Z.quot_div_nonneg by lia.
      assert (0 <= 63 * v / 1000 <= 63).
      { split; [apply Z.div_pos; lia | apply Z.div_le_upper_bound; lia]. }
      unfold to_uint8. rewrite Z.mod_small by lia. lia.
    + destruct (ac_format_hw caps =? AUDIO_FU_MUTE); dsimpl; [exact H |].
      destruct (ac_format_hw caps =? AUDIO_FU_BALANCE).
      * destruct (Z.abs (to_int16 (ac_controls_hw caps 0)) <=? 1000) eqn:E;
          dsimpl; [| exact H].
        apply Z.leb_le in E. apply Z.abs_le in E. lia.
      * destruct (ac_format_hw caps =? AUDIO_FU_MICGAIN); dsimpl; [| exact H].
        destruct ((-16 <=? to_int16 (ac_controls_hw caps 0)) &&
                  (to_int16 (ac_controls_hw caps 0) <=? 53)) eqn:E;
          dsimpl; [| exact H].
        apply andb_true_iff in E as [E1 E2].
        apply Z.leb_le in E1. apply Z.leb_le in E2. lia.
  - destruct (ac_type caps =? AUDIO_TYPE_OUTPUT).
    + destruct (negb (ac_channels caps =? 2)); dsimpl; exact H.
    + destruct (ac_type caps =? AUDIO_TYPE_PROCESSING); exact H.
Qed.

Lemma set_rx_cnt_twice (d : es8388char_dev_s) (x y : Z) :
  set_rx_cnt (set_rx_cnt d x) y = set_rx_cnt d y.
Proof. reflexivity. Qed.

Lemma set_rx_cnt_same (d : es8388char_dev_s) :
  set_rx_cnt d (rx_cnt d) = d.
Proof. destruct d; reflexivity. Qed.

Lemma apb_alloc_world (w : world) (ext : list Z) r b w1 ext1 :
  apb_alloc w ext = (r, Some (b, w1), ext1) ->
  0 <= r /\ b = next_apb w /\ priv w1 = priv w /\
  tx_inflight w1 = tx_inflight w /\ rx_inflight w1 = rx_inflight w /\
  next_apb w1 = S (next_apb w) /\ ext_call ext = (r, ext1).
Proof.
  unfold apb_alloc. destruct (ext_call ext) as [r0 e0] eqn:Ec.
  destruct (r0 <? 0) eqn:Er; intros E; inversion E; subst.
  apply Z.ltb_ge in Er. cbn. auto 8.
Qed.

(** Pre-posting changes only [rx_cnt] in the device, and keeps it at most
    [ES8388CHAR_RXBUF_CNT]. *)
Lemma dequeue_prepost_priv (n : nat) (w : world) (ext : list Z) (ret : Z) :
  let w' := fst (dequeue_prepost n w ext ret) in
  priv w' = set_rx_cnt (priv w) (rx_cnt (priv w')) /\
  (rx_cnt (priv w) <= ES8388CHAR_RXBUF_CNT ->
   rx_cnt (priv w') <= ES8388CHAR_RXBUF_CNT).
Proof.
  revert w ext ret. induction n as [| n IH]; intros w ext ret;
    cbn [dequeue_prepost].
  - cbn [fst]. rewrite set_rx_cnt_same. auto.
  - destruct (rx_cnt (priv w) <? ES8388CHAR_RXBUF_CNT) eqn:Elt;
      [| cbn [fst]; rewrite set_rx_cnt_same; auto].
    apply Z.ltb_lt in Elt.
    destruct (apb_alloc w ext) as [[r [[b w1] |]] ext1] eqn:Ea;
      [| cbn [fst]; rewrite set_rx_cnt_same; auto].
    apply apb_alloc_world in Ea as (_ & _ & Hp & _).
    destruct (ext_call ext1) as [r2 ext2].
    destruct (r2 <? 0).
    + cbn [fst]. rewrite Hp, set_rx_cnt_same. auto.
    + match goal with
      | |- context [dequeue_prepost n ?w2 ext2 r2] =>
        destruct (IH w2 ext2 r2) as [IH1 IH2]
      end.
      cbn [set_priv set_rx_inflight priv] in IH1, IH2 |- *.
      rewrite Hp in IH1, IH2 |- *. rewrite set_rx_cnt_twice in IH1.
      split; [exact IH1 |].
      intros _. apply IH2.
      unfold set_rx_cnt; cbn [rx_cnt]. unfold ES8388CHAR_RXBUF_CNT in *. lia.
Qed.

Lemma dev_inv_rx_cnt (d : es8388char_dev_s) (c : Z) :
  dev_inv d -> c <= ES8388CHAR_RXBUF_CNT -> dev_inv (set_rx_cnt d c).
Proof. unfold dev_inv. intros H Hc. dsimpl. tauto. Qed.

Lemma dev_inv_alloc (d : es8388char_dev_s) (c : Z) :
  dev_inv d -> dev_inv (set_alloc d c).
Proof. unfold dev_inv. intros H. dsimpl. tauto. Qed.

Lemma dequeue_prepost_dev_inv (n : nat) (w : world) (ext : list Z) (r : Z) :
  dev_inv (priv w) -> dev_inv (priv (fst (dequeue_prepost n w ext r))).
Proof.
  intros H. destruct (dequeue_prepost_priv n w ext r) as [E B].
  rewrite E. apply dev_inv_rx_cnt; [exact H |].
  rewrite E in B. apply B. apply H.
Qed.

Lemma dequeue_take_dev_inv (w : world) :
  dev_inv (priv w) -> dev_inv (priv (outcome_world (dequeue_take w))).
Proof.
  unfold dequeue_take. intros H.
  destruct (0 <? cnt_rxsem (priv w)) eqn:E; cbn [outcome_world]; [| exact H].
  apply Z.ltb_lt in E. unfold dev_inv in *. dsimpl.
  destruct H as [H1 H2]. destruct (rxedq (priv w)) as [| x q]; cbn in *; lia.
Qed.

Lemma ioctl_allocbuffer_dev_inv (w : world) (ext : list Z) :
  dev_inv (priv w) -> dev_inv (priv (outcome_world (ioctl_allocbuffer w ext))).
Proof.
  unfold ioctl_allocbuffer, allocbuffer_after_wait. intros H.
  destruct (0 <? alloc (priv w)); cbn [outcome_world]; [| exact H].
  destruct (apb_alloc _ ext) as [[r [[b w1] |]] e] eqn:Ea; cbn [outcome_world].
  - apply apb_alloc_world in Ea as (_ & _ & Hp & _). rewrite Hp.
    apply dev_inv_alloc. exact H.
  - apply dev_inv_alloc. exact H.
Qed.

Lemma ioctl_dev_inv (a : audio_abi) (w : world) (ext : list Z) (cmd : Z)
  (arg : ioctl_arg) :
  dev_inv (priv w) ->
  dev_inv (priv (outcome_world (es8388char_ioctl a w ext cmd arg))).
Proof.
  intros H. unfold es8388char_ioctl.
  destruct (decode a cmd); cbn [outcome_world].
  - apply ioctl_allocbuffer_dev_inv. exact H.
  - apply dev_inv_rx_cnt; [exact H |]. destruct H as (_ & H & _).
    unfold ES8388CHAR_RXBUF_CNT in *. lia.
  - unfold ioctl_enqueuebuffer. destruct (ext_call ext) as [r e].
    destruct (r <? 0); exact H.
  - unfold ioctl_dequeuebuffer.
    pose proof (dequeue_prepost_dev_inv
                  (Z.to_nat (ES8388CHAR_RXBUF_CNT - rx_cnt (priv w))) w ext 0 H)
      as Hp.
    destruct (dequeue_prepost _ w ext 0) as [w' r].
    destruct (0 <=? r); [apply dequeue_take_dev_inv |]; exact Hp.
  - pose proof (configure_dev_inv (priv w) (a_caps arg) H) as Hc.
    destruct (es8388char_configure (priv w) (a_caps arg)) as [d' r].
    exact Hc.
  - exact H.
  - exact H.
  - exact H.
Qed.

Lemma step_dev_inv (a : audio_abi) (s s' : sys) (l : label) :
  dev_inv (priv (fst s)) -> step a s l s' -> dev_inv (priv (fst s')).
Proof.
  intros H S. inversion S; subst; cbn [fst] in *.
  - pose proof (ioctl_dev_inv a w ext cmd arg H) as Hi.
    rewrite H0 in Hi. exact Hi.
  - pose proof (ioctl_dev_inv a w ext cmd arg H) as Hi.
    rewrite H0 in Hi. exact Hi.
  - destruct k; cbn in H0.
    + pose proof (ioctl_allocbuffer_dev_inv w ext H) as Hi.
      rewrite H0 in Hi. exact Hi.
    + pose proof (dequeue_take_dev_inv w H) as Hi.
      rewrite H0 in Hi. exact Hi.
  - unfold es8388char_txcallback. dsimpl. apply dev_inv_alloc. exact H.
  - unfold es8388char_rxcallback, dev_inv in *. dsimpl.
    rewrite length_app. cbn [length]. lia.
Qed.

Lemma reach_dev_inv (a : audio_abi) (tr : list label) (s : sys) :
  reach a tr s -> dev_inv (priv (fst s)).
Proof.
  induction 1 as [| tr s l s' R IH S].
  - exact register_dev_inv.
  - exact (step_dev_inv a s s' l IH S).
Qed.

Lemma ext_call_nonneg (ext : list Z) :
  Forall (Z.le 0) ext ->
  0 <= fst (ext_call ext) /\ Forall (Z.le 0) (snd (ext_call ext)).
Proof.
  destruct ext as [| r e]; intros H; cbn.
  - unfold OK. auto with zarith.
  - inversion H; subst. auto.
Qed.

(** Pre-posting with every pool allocation and every [I2S_RECEIVE]
    succeeding: [n] more receives are posted, on the fresh buffers
    [next_apb w], ..., [next_apb w + n - 1], and [rx_cnt] reaches
    [ES8388CHAR_RXBUF_CNT]. *)
Lemma dequeue_prepost_all_ok (n : nat) :
  forall (w : world) (ext : list Z) (ret : Z),
  Forall (Z.le 0) ext -> 0 <= ret ->
  rx_cnt (priv w) + Z.of_nat n = ES8388CHAR_RXBUF_CNT ->
  let w' := fst (dequeue_prepost n w ext ret) in
  rx_cnt (priv w') = ES8388CHAR_RXBUF_CNT /\
  rx_inflight w' = rx_inflight w ++ seq (next_apb w) n /\
  tx_inflight w' = tx_inflight w /\
  0 <= snd (dequeue_prepost n w ext ret).
Proof.
  induction n as [| n IH]; intros w ext ret Hx Hr Hn; cbn [dequeue_prepost].
  - cbn [fst snd seq]. rewrite app_nil_r. cbn [Z.of_nat] in Hn.
    repeat split; [lia | exact Hr].
  - rewrite Nat2Z.inj_succ in Hn.
    replace (rx_cnt (priv w) <? ES8388CHAR_RXBUF_CNT) with true
      by (symmetry; apply Z.ltb_lt; lia).
    unfold apb_alloc.
    destruct (ext_call_nonneg ext Hx) as [H1 H1'].
    destruct (ext_call ext) as [r1 e1]. cbn [fst snd] in H1, H1'.
    replace (r1 <? 0) with false by (symmetry; apply Z.ltb_ge; exact H1).
    destruct (ext_call_nonneg e1 H1') as [H2 H2'].
    destruct (ext_call e1) as [r2 e2]. cbn [fst snd] in H2, H2'.
    replace (r2 <? 0) with false by (symmetry; apply Z.ltb_ge; exact H2).
    match goal with
    | |- context [dequeue_prepost n ?w2 e2 r2] =>
      destruct (IH w2 e2 r2 H2' H2) as (E1 & E2 & E3 & E4)
    end.
    + dsimpl. lia.
    + dsimpl. repeat split; [exact E1 | | exact E3 | exact E4].
      rewrite E2, <- app_assoc. reflexivity.
Qed.


(** [n] FREEBUFFER calls on the freshly registered device, and what is
    reached from them. *)
Fixpoint free_run (a : audio_abi) (n : nat) : list action :=
  match n with
  | O => []
  | S n => free_run a n ++ [ACall [] (AUDIOIOC_FREEBUFFER a) (arg_buf 0%nat)]
  end.



(** X1. On every reachable state the count of [cnt_rxsem] is the number of
    buffers in [rxedq]: every [sem_post] of the receive callback goes with
    one [dq_addlast], every successful [sem_wait] of DEQUEUEBUFFER with one
    [dq_remfirst]. *)
Theorem reachable_rx_sem_counts_queue (a : audio_abi) (tr : list label)
  (s : sys) :
  reach a tr s ->
  cnt_rxsem (priv (fst s)) = Z.of_nat (length (rxedq (priv (fst s)))).
Proof. intros R. apply (reach_dev_inv a tr s R). Qed.

Lemma reachable_rx_sem_counts_queue_witness :
  exists tr s, reach example_abi tr s /\
  cnt_rxsem (priv (fst s)) = 1 /\
  cnt_rxsem (priv (fst s)) = Z.of_nat (length (rxedq (priv (fst s)))).
Proof.
  destruct (run example_abi rx_run) as [[tr s] |] eqn:E.
  - exists tr, s. pose proof (run_reach _ _ _ _ E) as R.
    split; [exact R |].
    split; [| exact (reachable_rx_sem_counts_queue example_abi tr s R)].
    vm_compute in E. inversion E. reflexivity.
  - vm_compute in E. discriminate.
Defined.



(** X3. On every reachable state, a DEQUEUEBUFFER that returns (directly,
    or after sleeping on [cnt_rxsem]) either fails with a negative code and
    a NULL buffer, or returns 0 with a buffer: it never hands out NULL with
    success, since [sem_wait] only lets it past with [rxedq] non-empty. *)
Theorem dequeue_success_has_buffer (a : audio_abi) (tr : list label)
  (s s' : sys) (l : label) :
  reach a tr s -> step a s l s' ->
  match l with
  | LCall IocDequeue r o | LResume KDequeue r o =>
    (r < 0 /\ o = ODeq None) \/ (r = 0 /\ exists b, o = ODeq (Some b))
  | _ => True
  end.
Proof.
  intros R S. pose proof (reach_dev_inv a tr s R) as Hinv.
  assert (T : forall w r o w',
             dev_inv (priv w) -> dequeue_take w = Done w' r o ->
             r = 0 /\ exists b, o = ODeq (Some b)).
  { intros w r o w' [Hc _]. unfold dequeue_take.
    destruct (0 <? cnt_rxsem (priv w)) eqn:E; [| discriminate].
    apply Z.ltb_lt in E. intros D. inversion D; subst.
    destruct (rxedq (priv w)) as [| b q]; cbn in *; [lia |].
    split; [reflexivity | exists b; reflexivity]. }
  inversion S; subst; cbn [fst] in Hinv; [| exact I | | exact I | exact I].
  - destruct (decode a cmd) eqn:Dc; try exact I.
    unfold es8388char_ioctl in H. rewrite Dc in H.
    unfold ioctl_dequeuebuffer in H.
    pose proof (dequeue_prepost_dev_inv
                  (Z.to_nat (ES8388CHAR_RXBUF_CNT - rx_cnt (priv w))) w ext 0
                  Hinv) as Hp.
    destruct (dequeue_prepost _ w ext 0) as [w1 r1]. cbn [fst] in Hp.
    destruct (0 <=? r1) eqn:Er.
    + right. exact (T w1 r o w' Hp H).
    + left. inversion H; subst. apply Z.leb_gt in Er. auto.
  - destruct k; [exact I |]. cbn in H. right. exact (T w r o w' Hinv H).
Qed.

Lemma dequeue_success_has_buffer_witness :
  exists tr s s' l, reach example_abi tr s /\ step example_abi s l s' /\
  l = LResume KDequeue 0 (ODeq (Some 0%nat)) /\
  match l with
  | LCall IocDequeue r o | LResume KDequeue r o =>
    (r < 0 /\ o = ODeq None) \/ (r = 0 /\ exists b, o = ODeq (Some b))
  | _ => True
  end.
Proof.
  destruct (run example_abi (removelast rx_run)) as [[tr s] |] eqn:E.
  - destruct (exec_action example_abi s (AResume [])) as [[l s'] |] eqn:X.
    + exists tr, s, s', l. pose proof (run_reach _ _ _ _ E) as R.
      pose proof (exec_action_step _ _ _ _ _ X) as S.
      split; [exact R |]. split; [exact S |].
      split; [| exact (dequeue_success_has_buffer example_abi tr s s' l R S)].
      vm_compute in E. inversion E; subst. vm_compute in X.
      inversion X. reflexivity.
    + vm_compute in E. inversion E; subst. vm_compute in X. discriminate.
  - vm_compute in E. discriminate.
Defined.

(** X4. When every pool allocation and every [I2S_RECEIVE] succeeds,
    DEQUEUEBUFFER tops the receive ring up: it posts
    [ES8388CHAR_RXBUF_CNT - rx_cnt] fresh buffers, in allocation order,
    sets [rx_cnt] to [ES8388CHAR_RXBUF_CNT], changes nothing else in the
    device, and then takes from [rxedq] as [dequeue_take] does. *)
Theorem dequeue_tops_up_receive_ring (w : world) (ext : list Z) :
  Forall (Z.le 0) ext -> rx_cnt (priv w) <= ES8388CHAR_RXBUF_CNT ->
  exists w',
  ioctl_dequeuebuffer w ext = dequeue_take w' /\
  priv w' = set_rx_cnt (priv w) ES8388CHAR_RXBUF_CNT /\
  rx_inflight w' = rx_inflight w ++
    seq (next_apb w) (Z.to_nat (ES8388CHAR_RXBUF_CNT - rx_cnt (priv w))) /\
  tx_inflight w' = tx_inflight w.
Proof.
  intros Hx Hle. unfold ioctl_dequeuebuffer.
  set (n := Z.to_nat (ES8388CHAR_RXBUF_CNT - rx_cnt (priv w))).
  destruct (dequeue_prepost_all_ok n w ext 0 Hx (Z.le_refl 0))
    as (E1 & E2 & E3 & E4).
  { unfold n. rewrite Z2Nat.id by lia. lia. }
  destruct (dequeue_prepost_priv n w ext 0) as [P _].
  destruct (dequeue_prepost n w ext 0) as [w' r]. cbn [fst snd] in *.
  exists w'. replace (0 <=? r) with true by (symmetry; apply Z.leb_le; exact E4).
  rewrite P, E1 at 1. auto.
Qed.

Lemma dequeue_tops_up_receive_ring_witness :
  Forall (Z.le 0) [] /\ rx_cnt (priv init_world) <= ES8388CHAR_RXBUF_CNT /\
  exists w',
  ioctl_dequeuebuffer init_world [] = dequeue_take w' /\
  priv w' = set_rx_cnt (priv init_world) ES8388CHAR_RXBUF_CNT /\
  rx_inflight w' = rx_inflight init_world ++
    seq (next_apb init_world)
      (Z.to_nat (ES8388CHAR_RXBUF_CNT - rx_cnt (priv init_world))) /\
  tx_inflight w' = tx_inflight init_world.
Proof.
  split; [constructor |]. split; [vm_compute; discriminate |].
  apply dequeue_tops_up_receive_ring; [constructor | vm_compute; discriminate].
Defined.





(** ** es8388char_setmic and its [sem_post(&priv->alloc)] *)

(** [es8388char_setmic]: the register write is commented out; what is left
    is [sem_post(&priv->alloc)]. *)
Definition es8388char_setmic (d : es8388char_dev_s) : es8388char_dev_s :=
  set_alloc d (alloc d + 1).

(** [es8388char_configure] with [es8388char_setmic] included. *)
Definition es8388char_configure_sem (d : es8388char_dev_s)
  (caps : audio_caps_s) : es8388char_dev_s * Z :=
  if ac_type caps =? AUDIO_TYPE_FEATURE then
    let fu := ac_format_hw caps in
    if fu =? AUDIO_FU_VOLUME then
      let v := ac_controls_hw caps 0 in
      ((if v <=? 1000 then set_volume d (to_uint8 (63 - Z.quot (63 * v) 1000))
        else d), OK)
    else if fu =? AUDIO_FU_MUTE then
      (set_mute d (negb (ac_controls_b caps 0 =? 0)), OK)
    else if fu =? AUDIO_FU_BALANCE then
      let bal := to_int16 (ac_controls_hw caps 0) in
      ((if Z.abs bal <=? 1000 then set_balance d bal else d), OK)
    else if fu =? AUDIO_FU_MICGAIN then
      let gain := to_int16 (ac_controls_hw caps 0) in
      ((if (-16 <=? gain) && (gain <=? 53)
        then es8388char_setmic (set_micgain d gain) else d), OK)
    else (d, - ENOTTY)
  else if ac_type caps =? AUDIO_TYPE_OUTPUT then
    if negb (ac_channels caps =? 2) then (d, - ERANGE)
    else
      (set_stream d (ac_controls_hw caps 0) (ac_channels caps)
         (ac_controls_b caps 2), OK)
  else if ac_type caps =? AUDIO_TYPE_PROCESSING then (d, OK)
  else (d, OK).




(** The two models of CONFIGURE differ only in the [alloc] post of an
    accepted MICGAIN. *)
Lemma configure_sem_configure (d : es8388char_dev_s) (caps : audio_caps_s) :
  snd (es8388char_configure_sem d caps) = snd (es8388char_configure d caps) /\
  (ac_type caps = AUDIO_TYPE_FEATURE -> ac_format_hw caps = AUDIO_FU_MICGAIN ->
   -16 <= to_int16 (ac_controls_hw caps 0) <= 53 ->
   fst (es8388char_configure_sem d caps) =
   es8388char_setmic (fst (es8388char_configure d caps))) /\
  (~ (ac_type caps = AUDIO_TYPE_FEATURE /\
      ac_format_hw caps = AUDIO_FU_MICGAIN /\
      -16 <= to_int16 (ac_controls_hw caps 0) <= 53) ->
   fst (es8388char_configure_sem d caps) = fst (es8388char_configure d caps)).
Proof.
  unfold es8388char_configure_sem, es8388char_configure.
  destruct (ac_type caps =? AUDIO_TYPE_FEATURE) eqn:Et;
    [apply Z.eqb_eq in Et | apply Z.eqb_neq in Et].
  - destruct (ac_format_hw caps =? AUDIO_FU_VOLUME) eqn:Ev;
      [apply Z.eqb_eq in Ev | apply Z.eqb_neq in Ev].
    { split; [reflexivity |]. split; [| intros; reflexivity].
      intros _ Hf. rewrite Ev in Hf. cbv in Hf. discriminate Hf. }
    destruct (ac_format_hw caps =? AUDIO_FU_MUTE) eqn:Em;
      [apply Z.eqb_eq in Em | apply Z.eqb_neq in Em].
    { split; [reflexivity |]. split; [| intros; reflexivity].
      intros _ Hf. rewrite Em in Hf. cbv in Hf. discriminate Hf. }
    destruct (ac_format_hw caps =? AUDIO_FU_BALANCE) eqn:Eb;
      [apply Z.eqb_eq in Eb | apply Z.eqb_neq in Eb].
    { split; [reflexivity |]. split; [| intros; reflexivity].
      intros _ Hf. rewrite Eb in Hf. cbv in Hf. discriminate Hf. }
    destruct (ac_format_hw caps =? AUDIO_FU_MICGAIN) eqn:Eg;
      [apply Z.eqb_eq in Eg | apply Z.eqb_neq in Eg].
    + cbv zeta.
      destruct ((-16 <=? to_int16 (ac_controls_hw caps 0)) &&
                (to_int16 (ac_controls_hw caps 0) <=? 53)) eqn:E.
      * apply andb_true_iff in E as [E1 E2].
        apply Z.leb_le in E1. apply Z.leb_le in E2.
        split; [reflexivity |]. split; [intros; reflexivity |].
        intros C. exfalso. apply C. auto.
      * split; [reflexivity |]. split; [| intros; reflexivity].
        intros _ _ [H1 H2]. apply Z.leb_le in H1. apply Z.leb_le in H2.
        rewrite H1, H2 in E. discriminate.
    + split; [reflexivity |]. split; [| intros; reflexivity].
      intros _ Hf. contradiction.
  - split; [reflexivity |]. split; [intros; contradiction |]. intros _.
    destruct (ac_type caps =? AUDIO_TYPE_OUTPUT); [| reflexivity].
    destruct (negb (ac_channels caps =? 2)); reflexivity.
Qed.






(** ** es8388char_register *)

From Stdlib Require Strings.String Strings.Ascii.
Import (notations) Stdlib.Strings.String.

(** [DEVNAME_FMT] is ["/dev/es8388char%d"]; [DEVNAME_FMTLEN] is
    [16 + 3 + 1]. *)
Definition DEVNAME_FMTLEN : nat := 16 + 3 + 1.
Definition DEVNAME_PREFIX : String.string := "/dev/es8388char"%string.

(** [%d] of a non-negative [int]: its decimal digits, most significant
    first. *)
Fixpoint decimal_aux (fuel n : nat) (acc : String.string) : String.string :=
  match fuel with
  | O => acc
  | S f =>
    let acc' := String.String (Ascii.ascii_of_nat (48 + n mod 10)) acc in
    if Nat.ltb n 10 then acc' else decimal_aux f (n / 10) acc'
  end.

Definition decimal (n : nat) : String.string :=
  decimal_aux (S n) n String.EmptyString.

(** [snprintf(buf, size, ...)]: at most [size - 1] characters are kept,
    then the terminating NUL. *)
Definition snprintf_trunc (size : nat) (s : String.string) : String.string :=
  String.substring 0 (size - 1) s.

Definition es8388char_devname (minor : nat) : String.string :=
  snprintf_trunc DEVNAME_FMTLEN (String.append DEVNAME_PREFIX (decimal minor)).


(** Reading the minor number back from a device name. *)
Fixpoint parse_decimal (s : String.string) (acc : nat) : option nat :=
  match s with
  | String.EmptyString => Some acc
  | String.String c s' =>
    let k := Ascii.nat_of_ascii c in
    if Nat.leb 48 k && Nat.leb k 57 then parse_decimal s' (acc * 10 + (k - 48))
    else None
  end.

Definition minor_of_devname (s : String.string) : option nat :=
  parse_decimal (String.substring 15 (String.length s - 15) s) 0.

Definition option_nat_eqb (x y : option nat) : bool :=
  match x, y with
  | Some a, Some b => Nat.eqb a b
  | None, None => true
  | _, _ => false
  end.

Lemma devnames_below_1000 :
  forallb (fun n =>
    String.eqb (es8388char_devname n) (String.append DEVNAME_PREFIX (decimal n))
    && option_nat_eqb (minor_of_devname (es8388char_devname n)) (Some n))
    (seq 0 1000) = true.
Proof. vm_compute. reflexivity. Qed.


(** X10. For the minors [es8388char_register] accepts ([minor < 1000]),
    the name fits [DEVNAME_FMTLEN], so [snprintf] does not cut it, and two
    minors never get the same device name. *)
Theorem devname_untruncated_injective (m1 m2 : nat) :
  (m1 < 1000)%nat -> (m2 < 1000)%nat ->
  es8388char_devname m1 = String.append DEVNAME_PREFIX (decimal m1) /\
  (es8388char_devname m1 = es8388char_devname m2 -> m1 = m2).
Proof.
  intros H1 H2. pose proof devnames_below_1000 as F.
  rewrite forallb_forall in F.
  assert (G : forall n, (n < 1000)%nat ->
             es8388char_devname n = String.append DEVNAME_PREFIX (decimal n) /\
             minor_of_devname (es8388char_devname n) = Some n).
  { intros n Hn. specialize (F n ltac:(apply in_seq; lia)).
    apply andb_true_iff in F as [Fa Fb].
    apply String.eqb_eq in Fa. split; [exact Fa |].
    destruct (minor_of_devname (es8388char_devname n)) as [k |]; [| discriminate].
    apply Nat.eqb_eq in Fb. subst. reflexivity. }
  destruct (G m1 H1) as [A1 B1]. destruct (G m2 H2) as [_ B2].
  split; [exact A1 |].
  intros E. rewrite E in B1. rewrite B1 in B2. inversion B2. reflexivity.
Qed.

Lemma devname_untruncated_injective_witness :
  (7 < 1000)%nat /\ (12 < 1000)%nat /\
  es8388char_devname 7 = String.append DEVNAME_PREFIX (decimal 7) /\
  (es8388char_devname 7 = es8388char_devname 12 -> 7%nat = 12%nat).
Proof.
  split; [lia |]. split; [lia |].
  apply devname_untruncated_injective; lia.
Defined.

(** ** Register access over I2C *)

(** Modelled: the codec behind [i2c_write]/[i2c_read] (neither is under
    src/): its register file and the register pointer a one-byte write
    selects. Each bus call takes its return code from [ext] as the other
    collaborators do; a failed call leaves the codec alone. *)
Record codec := mk_codec {
  regs : Z -> Z;
  reg_ptr : Z
}.

Definition upd (f : Z -> Z) (k v : Z) : Z -> Z :=
  fun x => if x =? k then v else f x.

Definition i2c_write (c : codec) (ext : list Z) (bytes : list Z)
  : Z * codec * list Z :=
  let '(r, ext') := ext_call ext in
  if r <? 0 then (r, c, ext')
  else match bytes with
       | [a] => (r, mk_codec (regs c) a, ext')
       | [a; v] => (r, mk_codec (upd (regs c) a v) a, ext')
       | _ => (r, c, ext')
       end.

(** [i2c_read] of one byte: the return code, and the byte stored in the
    buffer when the read succeeds. *)
Definition i2c_read (c : codec) (ext : list Z) (buf0 : Z)
  : Z * Z * list Z :=
  let '(r, ext') := ext_call ext in
  if r <? 0 then (r, buf0, ext') else (r, regs c (reg_ptr c), ext').

(** [es8388char_readreg]: the byte read lands in [regaddr], and what is
    returned is [ret], the return code of [i2c_read], as [uint8_t]. *)
Definition es8388char_readreg (c : codec) (ext : list Z) (regaddr : Z)
  : Z * codec * list Z :=
  let '(r1, c1, e1) := i2c_write c ext [regaddr] in
  if r1 <? 0 then (0, c1, e1)
  else
    let '(r2, _regaddr, e2) := i2c_read c1 e1 regaddr in
    if r2 <? 0 then (0, c1, e2) else (to_uint8 r2, c1, e2).

(** [es8388char_writereg]: the error is only logged. *)
Definition es8388char_writereg (c : codec) (ext : list Z) (regaddr regval : Z)
  : codec * list Z :=
  let '(_, c1, e1) := i2c_write c ext [regaddr; regval] in (c1, e1).

Definition es8388char_modifyreg (c : codec) (ext : list Z)
  (regaddr clear set : Z) : Z * codec * list Z :=
  let '(data0, c1, e1) := es8388char_readreg c ext regaddr in
  let data := to_uint8 (Z.land data0 (Z.lnot clear)) in   (* data &= ~clear *)
  let data := to_uint8 (Z.lor data set) in                (* data |= set *)
  let '(c2, e2) := es8388char_writereg c1 e1 regaddr data in
  es8388char_readreg c2 e2 regaddr.

(** [t_codec_init_script_entry] (declared outside src/): register, value
    and delay. *)
Record script_entry := mk_entry {
  se_addr : Z;
  se_val : Z;
  se_delay : Z
}.

(** [es8388char_i2c_script]: [modifyreg(priv, addr, 0xFF, val)] for each
    entry in order; [delay] busy-waits and changes nothing. *)
Fixpoint es8388char_i2c_script (c : codec) (ext : list Z)
  (script : list script_entry) : codec * list Z :=
  match script with
  | [] => (c, ext)
  | e :: rest =>
    let '(_, c1, e1) :=
      es8388char_modifyreg c ext (to_uint8 (se_addr e)) 255
        (to_uint8 (se_val e)) in
    es8388char_i2c_script c1 e1 rest
  end.

(** Case analysis on the bus calls of a register access: each return code
    is split on its sign, once. *)
Ltac bus_cases :=
  repeat (cbv beta iota zeta;
    match goal with
    | H : (?b = _) |- context [if ?b then _ else _] => rewrite H
    | H : ext_call ?e = _ |- context [ext_call ?e] => rewrite H
    | |- context [if ?b then _ else _] =>
      let E := fresh "E" in destruct b eqn:E
    | |- context [ext_call ?e] =>
      let E := fresh "Ec" in destruct (ext_call e) eqn:E
    end).

Lemma readreg_range (c : codec) (ext : list Z) (a : Z) :
  let '(v, _, _) := es8388char_readreg c ext a in 0 <= v < 256.
Proof.
  unfold es8388char_readreg, i2c_write, i2c_read. bus_cases; try lia.
  unfold to_uint8. apply Z.mod_pos_bound. lia.
Qed.

Lemma clear_all_bits (d s : Z) :
  0 <= d < 256 ->
  to_uint8 (Z.lor (to_uint8 (Z.land d (Z.lnot 255))) s) = to_uint8 s.
Proof.
  intros Hd.
  assert (E : Z.land d (Z.lnot 255) = 0).
  { rewrite <- Z.ldiff_land. change 255 with (Z.ones 8).
    rewrite Z.ldiff_ones_r by lia.
    rewrite Z.shiftr_div_pow2 by lia.
    rewrite Z.div_small by (change (2 ^ 8) with 256; lia). reflexivity. }
  rewrite E. reflexivity.
Qed.

Lemma ext_call_ok (ext : list Z) :
  Forall (Z.le 0) ext ->
  exists r ext', ext_call ext = (r, ext') /\ 0 <= r /\ Forall (Z.le 0) ext'.
Proof.
  intros H. destruct (ext_call_nonneg ext H) as [H1 H2].
  destruct (ext_call ext) as [r e]. exists r, e. auto.
Qed.

(** Bus calls that all succeed, one after the other. *)
Ltac bus_ok :=
  repeat (cbv beta iota zeta;
    match goal with
    | H : 0 <= ?r |- context [?r <? 0] => rewrite (proj2 (Z.ltb_ge r 0) H)
    | H : Forall (Z.le 0) ?e |- context [ext_call ?e] =>
      let r := fresh "r" in let e' := fresh "e" in
      let Ec := fresh "Ec" in let Hr := fresh "Hr" in let He := fresh "He" in
      destruct (ext_call_ok e H) as (r & e' & Ec & Hr & He); rewrite Ec
    end).

Lemma readreg_ok (c : codec) (ext : list Z) (a : Z) :
  Forall (Z.le 0) ext ->
  let '(_, c1, e1) := es8388char_readreg c ext a in
  regs c1 = regs c /\ Forall (Z.le 0) e1.
Proof.
  intros H. unfold es8388char_readreg, i2c_write, i2c_read. bus_ok. auto.
Qed.

(** With every bus call succeeding, [modifyreg(addr, 0xFF, set)] stores
    [set] in the register, whatever the register held and whatever the
    first read returned. *)
Lemma modifyreg_clear_all_ok (c : codec) (ext : list Z) (a s : Z) :
  Forall (Z.le 0) ext ->
  let '(_, c', e') := es8388char_modifyreg c ext a 255 s in
  regs c' = upd (regs c) a (to_uint8 s) /\ Forall (Z.le 0) e'.
Proof.
  intros H. unfold es8388char_modifyreg.
  pose proof (readreg_range c ext a) as Hr.
  pose proof (readreg_ok c ext a H) as Ho.
  destruct (es8388char_readreg c ext a) as [[d c1] e1].
  destruct Ho as [Hc1 He1].
  rewrite (clear_all_bits d s Hr).
  unfold es8388char_writereg, i2c_write.
  destruct (ext_call_nonneg e1 He1) as [H2 H2'].
  destruct (ext_call e1) as [r2 e2]. cbn [fst snd] in H2, H2'.
  replace (r2 <? 0) with false by (symmetry; apply Z.ltb_ge; exact H2).
  pose proof (readreg_ok (mk_codec (upd (regs c1) a (to_uint8 s)) a) e2 a H2')
    as Ho.
  destruct (es8388char_readreg _ e2 a) as [[v c3] e3].
  destruct Ho as [Hc3 He3]. rewrite Hc3. cbn [regs]. rewrite Hc1. auto.
Qed.


(** X12. With every bus call succeeding, [es8388char_i2c_script] leaves
    the codec registers as the script's writes applied in order: each
    register holds the value of the last entry for it (both truncated to
    [uint8_t]), whatever it held before and whatever the reads of
    [modifyreg] returned. *)
Theorem i2c_script_applies_in_order (script : list script_entry) :
  forall (c : codec) (ext : list Z),
  Forall (Z.le 0) ext ->
  regs (fst (es8388char_i2c_script c ext script)) =
  fold_left (fun f e => upd f (to_uint8 (se_addr e)) (to_uint8 (se_val e)))
    script (regs c).
Proof.
  induction script as [| e rest IH]; intros c ext H; [reflexivity |].
  cbn [es8388char_i2c_script fold_left].
  pose proof (modifyreg_clear_all_ok c ext (to_uint8 (se_addr e))
                (to_uint8 (se_val e)) H) as M.
  destruct (es8388char_modifyreg c ext _ 255 _) as [[v c1] e1].
  destruct M as [M1 M2]. rewrite (IH c1 e1 M2), M1.
  replace (to_uint8 (to_uint8 (se_val e))) with (to_uint8 (se_val e))
    by (unfold to_uint8; rewrite Zmod_mod; reflexivity).
  reflexivity.
Qed.

Definition example_script : list script_entry :=
  [mk_entry 8 32 0; mk_entry 2 243 0; mk_entry 8 300 10].

Lemma i2c_script_applies_in_order_witness :
  Forall (Z.le 0) [] /\
  regs (fst (es8388char_i2c_script (mk_codec (fun _ => 0) 0) []
               example_script)) 8 = 44 /\
  regs (fst (es8388char_i2c_script (mk_codec (fun _ => 0) 0) []
               example_script)) =
  fold_left (fun f e => upd f (to_uint8 (se_addr e)) (to_uint8 (se_val e)))
    example_script (fun _ => 0).
Proof.
  pose proof (i2c_script_applies_in_order example_script
                (mk_codec (fun _ => 0) 0) [] (Forall_nil _)) as H.
  split; [constructor |]. split; [| exact H].
  rewrite H. reflexivity.
Defined.

(** * net_delroute.c: removing a route *)

Definition ENOENT : Z := 2.

(** [struct net_route_s] less its link: addresses are [in_addr_t]. *)
Record net_route_s := mk_route {
  rt_target : Z;
  rt_netmask : Z;
  rt_router : Z
}.

(** [g_routes], the routing table, and [g_freeroutes], the free list
    (both singly linked queues, in order). *)
Record route_tables := mk_tables {
  g_routes : list net_route_s;
  g_freeroutes : list net_route_s
}.

(** A route is named by its position in [g_routes]: [prev] is the position
    of the predecessor ([None] is NULL). *)
Record route_match_s := mk_match {
  m_prev : option nat;
  m_target : Z;
  m_netmask : Z
}.

(** [net_ipv4addr_maskcmp] and [net_ipv4addr_cmp] (tinyara/net/ip.h). *)
Definition net_ipv4addr_maskcmp (a b m : Z) : bool :=
  Z.land a m =? Z.land b m.
Definition net_ipv4addr_cmp (a b : Z) : bool := a =? b.

Definition remove_at {A} (n : nat) (l : list A) : list A :=
  firstn n l ++ skipn (S n) l.

(** [sq_remfirst] and [sq_remafter] on [g_routes]. *)
Definition sq_remfirst (t : route_tables) : route_tables :=
  mk_tables (remove_at 0 (g_routes t)) (g_freeroutes t).
Definition sq_remafter (prev : nat) (t : route_tables) : route_tables :=
  mk_tables (remove_at (S prev) (g_routes t)) (g_freeroutes t).

(** Modelled (net_route.c is not under src/): [net_freeroute] appends the
    entry to [g_freeroutes]. *)
Definition net_freeroute (r : net_route_s) (t : route_tables) : route_tables :=
  mk_tables (g_routes t) (g_freeroutes t ++ [r]).

Definition net_match (pos : nat) (route : net_route_s) (m : route_match_s)
  (t : route_tables) : Z * route_match_s * route_tables :=
  if net_ipv4addr_maskcmp (rt_target route) (m_target m) (m_netmask m) &&
     net_ipv4addr_cmp (rt_netmask route) (m_netmask m) then
    let t1 := match m_prev m with
              | Some p => sq_remafter p t
              | None => sq_remfirst t
              end in
    (1, m, net_freeroute route t1)
  else (0, mk_match (Some pos) (m_target m) (m_netmask m), t).

(** Modelled (net_route.c is not under src/): [net_foreachroute] calls the
    handler on each entry in order, having read the link before the call,
    and stops at the first non-zero return, which it returns. *)
Fixpoint foreachroute_from {A} (handler : nat -> net_route_s -> A ->
    route_tables -> Z * A * route_tables)
  (l : list net_route_s) (pos : nat) (arg : A) (t : route_tables)
  : Z * A * route_tables :=
  match l with
  | [] => (0, arg, t)
  | r :: rest =>
    let '(ret, arg', t') := handler pos r arg t in
    if ret =? 0 then foreachroute_from handler rest (S pos) arg' t'
    else (ret, arg', t')
  end.

Definition net_foreachroute {A} (handler : nat -> net_route_s -> A ->
    route_tables -> Z * A * route_tables) (arg : A) (t : route_tables)
  : Z * A * route_tables :=
  foreachroute_from handler (g_routes t) 0 arg t.

Definition net_delroute (target netmask : Z) (t : route_tables)
  : Z * route_tables :=
  let '(ret, _, t') := net_foreachroute net_match (mk_match None target netmask) t in
  (if ret =? 0 then - ENOENT else OK, t').

(** The test [net_match] applies. *)
Definition route_matches (target netmask : Z) (r : net_route_s) : bool :=
  net_ipv4addr_maskcmp (rt_target r) target netmask &&
  net_ipv4addr_cmp (rt_netmask r) netmask.

Definition prev_of (pos : nat) : option nat :=
  match pos with O => None | S k => Some k end.

Lemma remove_at_app {A} (a b : list A) (x : A) :
  remove_at (length a) (a ++ x :: b) = a ++ b.
Proof.
  unfold remove_at. rewrite firstn_app, skipn_app, Nat.sub_diag,
    firstn_all, skipn_all2 by lia.
  replace (S (length a) - length a)%nat with 1%nat by lia.
  cbn. rewrite app_nil_r. reflexivity.
Qed.

Lemma foreach_match_found (target netmask : Z) (r : net_route_s)
  (l2 : list net_route_s) (l1 pre : list net_route_s) (t : route_tables) :
  g_routes t = pre ++ l1 ++ r :: l2 ->
  Forall (fun x => route_matches target netmask x = false) l1 ->
  route_matches target netmask r = true ->
  let '(ret, _, t') :=
    foreachroute_from net_match (l1 ++ r :: l2) (length pre)
      (mk_match (prev_of (length pre)) target netmask) t in
  ret = 1 /\ t' = mk_tables (pre ++ l1 ++ l2) (g_freeroutes t ++ [r]).
Proof.
  revert pre. induction l1 as [| x l1 IH]; intros pre Ht Hf Hr.
  - cbn [app foreachroute_from]. unfold net_match. cbn [m_target m_netmask m_prev].
    unfold route_matches in Hr. rewrite Hr. cbv beta iota zeta.
    split; [reflexivity |].
    unfold net_freeroute.
    assert (Hrm : g_routes (match prev_of (length pre) with
                            | Some p => sq_remafter p t
                            | None => sq_remfirst t
                            end) = remove_at (length pre) (g_routes t)
                  /\ g_freeroutes (match prev_of (length pre) with
                            | Some p => sq_remafter p t
                            | None => sq_remfirst t
                            end) = g_freeroutes t)
      by (destruct pre; split; reflexivity).
    destruct Hrm as [Hrm1 Hrm2]. rewrite Hrm1, Hrm2, Ht.
    cbn [app]. rewrite remove_at_app. reflexivity.
  - inversion Hf as [| ? ? Hx Hf']; subst.
    cbn [app foreachroute_from]. unfold net_match at 1.
    cbn [m_target m_netmask m_prev].
    unfold route_matches in Hx. rewrite Hx. cbv beta iota zeta.
    change (Some (length pre)) with (prev_of (S (length pre))).
    replace (S (length pre)) with (length (pre ++ [x]))
      by (rewrite length_app; cbn; lia).
    specialize (IH (pre ++ [x])).
    rewrite <- !app_assoc in IH. cbn [app] in IH.
    exact (IH Ht Hf' Hr).
Qed.

Lemma foreach_match_none (target netmask : Z) (l pre : list net_route_s)
  (t : route_tables) :
  Forall (fun x => route_matches target netmask x = false) l ->
  let '(ret, _, t') :=
    foreachroute_from net_match l (length pre)
      (mk_match (prev_of (length pre)) target netmask) t in
  ret = 0 /\ t' = t.
Proof.
  revert pre. induction l as [| x l IH]; intros pre Hf; [split; reflexivity |].
  inversion Hf as [| ? ? Hx Hf']; subst.
  cbn [foreachroute_from]. unfold net_match at 1.
  cbn [m_target m_netmask m_prev].
  unfold route_matches in Hx. rewrite Hx. cbv beta iota zeta.
  change (Some (length pre)) with (prev_of (S (length pre))).
  replace (S (length pre)) with (length (pre ++ [x]))
    by (rewrite length_app; cbn; lia).
  exact (IH (pre ++ [x]) Hf').
Qed.

From Stdlib Require Import Permutation.

Lemma first_match_split (target netmask : Z) (l : list net_route_s) :
  Forall (fun x => route_matches target netmask x = false) l \/
  exists l1 r l2, l = l1 ++ r :: l2 /\
  Forall (fun x => route_matches target netmask x = false) l1 /\
  route_matches target netmask r = true.
Proof.
  induction l as [| x l [IH | (l1 & r & l2 & E & F & M)]]; [left; constructor | |].
  - destruct (route_matches target netmask x) eqn:Ex.
    + right. exists [], x, l. auto.
    + left. constructor; assumption.
  - destruct (route_matches target netmask x) eqn:Ex.
    + right. exists [], x, l. auto.
    + right. exists (x :: l1), r, l2. subst. auto.
Qed.

Lemma delroute_first_match_lemma (target netmask : Z) (t : route_tables)
  (l1 : list net_route_s) (r : net_route_s) (l2 : list net_route_s) :
  g_routes t = l1 ++ r :: l2 ->
  Forall (fun x => route_matches target netmask x = false) l1 ->
  route_matches target netmask r = true ->
  net_delroute target netmask t =
  (OK, mk_tables (l1 ++ l2) (g_freeroutes t ++ [r])).
Proof.
  intros Ht Hf Hr. unfold net_delroute, net_foreachroute.
  pose proof (foreach_match_found target netmask r l2 l1 [] t Ht Hf Hr) as H.
  cbn [length prev_of app] in H. rewrite Ht.
  destruct (foreachroute_from net_match (l1 ++ r :: l2) 0 _ t)
    as [[ret m'] t'].
  destruct H as [H1 H2]. subst. reflexivity.
Qed.

Lemma delroute_no_match_lemma (target netmask : Z) (t : route_tables) :
  Forall (fun x => route_matches target netmask x = false) (g_routes t) ->
  net_delroute target netmask t = (- ENOENT, t).
Proof.
  intros Hf. unfold net_delroute, net_foreachroute.
  pose proof (foreach_match_none target netmask (g_routes t) [] t Hf) as H.
  cbn [length prev_of] in H.
  destruct (foreachroute_from net_match (g_routes t) 0 _ t) as [[ret m'] t'].
  destruct H as [H1 H2]. subst. reflexivity.
Qed.

(** X13. [net_delroute] removes the first entry of [g_routes] whose masked
    target and netmask match, keeps the other entries in order, puts the
    removed entry at the end of the free list and returns OK; later
    matching entries stay in the table. *)
Theorem delroute_removes_first_match (target netmask : Z) (t : route_tables)
  (l1 : list net_route_s) (r : net_route_s) (l2 : list net_route_s) :
  g_routes t = l1 ++ r :: l2 ->
  Forall (fun x => route_matches target netmask x = false) l1 ->
  route_matches target netmask r = true ->
  net_delroute target netmask t =
  (OK, mk_tables (l1 ++ l2) (g_freeroutes t ++ [r])).
Proof. apply delroute_first_match_lemma. Qed.

Definition example_routes : route_tables :=
  mk_tables [mk_route 167772160 4278190080 1; mk_route 3232235776 4294967040 2;
             mk_route 3232235777 4294967040 3] [].

Lemma delroute_removes_first_match_witness :
  g_routes example_routes =
    [mk_route 167772160 4278190080 1] ++ mk_route 3232235776 4294967040 2 ::
    [mk_route 3232235777 4294967040 3] /\
  Forall (fun x => route_matches 3232235876 4294967040 x = false)
    [mk_route 167772160 4278190080 1] /\
  route_matches 3232235876 4294967040 (mk_route 3232235776 4294967040 2) = true /\
  net_delroute 3232235876 4294967040 example_routes =
  (OK, mk_tables ([mk_route 167772160 4278190080 1] ++
                  [mk_route 3232235777 4294967040 3])
         (g_freeroutes example_routes ++ [mk_route 3232235776 4294967040 2])).
Proof.
  assert (E : g_routes example_routes =
    [mk_route 167772160 4278190080 1] ++ mk_route 3232235776 4294967040 2 ::
    [mk_route 3232235777 4294967040 3]) by reflexivity.
  assert (F : Forall (fun x => route_matches 3232235876 4294967040 x = false)
    [mk_route 167772160 4278190080 1]) by (constructor; [vm_compute; reflexivity | constructor]).
  assert (M : route_matches 3232235876 4294967040
                (mk_route 3232235776 4294967040 2) = true)
    by (vm_compute; reflexivity).
  split; [exact E |]. split; [exact F |]. split; [exact M |].
  exact (delroute_removes_first_match _ _ example_routes _ _ _ E F M).
Defined.

(** X14. When no entry matches, [net_delroute] returns [-ENOENT] and
    changes neither the table nor the free list. *)
Theorem delroute_no_match (target netmask : Z) (t : route_tables) :
  Forall (fun x => route_matches target netmask x = false) (g_routes t) ->
  net_delroute target netmask t = (- ENOENT, t).
Proof. apply delroute_no_match_lemma. Qed.

Lemma delroute_no_match_witness :
  Forall (fun x => route_matches 167837696 4294901760 x = false)
    (g_routes example_routes) /\
  net_delroute 167837696 4294901760 example_routes = (- ENOENT, example_routes).
Proof.
  assert (F : Forall (fun x => route_matches 167837696 4294901760 x = false)
                (g_routes example_routes)).
  { repeat constructor. }
  split; [exact F |]. exact (delroute_no_match _ _ example_routes F).
Defined.

(** X15. Every call returns OK or [-ENOENT]; OK exactly when some entry of
    the table matches; and no entry is lost or made up: the table and the
    free list hold together the same entries before and after. *)
Theorem delroute_conserves_entries (target netmask : Z) (t : route_tables) :
  let '(ret, t') := net_delroute target netmask t in
  (ret = OK <-> existsb (route_matches target netmask) (g_routes t) = true) /\
  (ret = OK \/ ret = - ENOENT) /\
  Permutation (g_routes t ++ g_freeroutes t) (g_routes t' ++ g_freeroutes t').
Proof.
  destruct (first_match_split target netmask (g_routes t))
    as [Hf | (l1 & r & l2 & E & Hf & Hr)].
  - rewrite (delroute_no_match_lemma target netmask t Hf).
    split; [| split; [right; reflexivity | apply Permutation_refl]].
    split; [intros C; discriminate C |].
    intros Ex. apply existsb_exists in Ex as (x & Hx & Mx).
    rewrite Forall_forall in Hf. rewrite (Hf x Hx) in Mx. discriminate.
  - rewrite (delroute_first_match_lemma target netmask t l1 r l2 E Hf Hr).
    split; [| split; [left; reflexivity |]].
    + split; [intros _ | reflexivity].
      apply existsb_exists. exists r. split; [| exact Hr].
      rewrite E. apply in_or_app. right. left. reflexivity.
    + cbn [g_routes g_freeroutes]. rewrite E.
      rewrite <- !app_assoc. apply Permutation_app_head.
      cbn [app]. rewrite app_assoc. apply Permutation_cons_append.
Qed.

Lemma route_matches_masked (target netmask : Z) (r : net_route_s) :
  route_matches (Z.land target netmask) netmask r =
  route_matches target netmask r.
Proof.
  unfold route_matches, net_ipv4addr_maskcmp.
  rewrite <- Z.land_assoc, Z.land_diag. reflexivity.
Qed.

(** X16. The bits of the target outside the netmask play no part:
    [net_delroute target netmask] and [net_delroute (target & netmask)
    netmask] return the same value and leave the same tables. *)
Theorem delroute_ignores_host_bits (target netmask : Z) (t : route_tables) :
  net_delroute target netmask t = net_delroute (Z.land target netmask) netmask t.
Proof.
  destruct (first_match_split target netmask (g_routes t))
    as [Hf | (l1 & r & l2 & E & Hf & Hr)].
  - rewrite (delroute_no_match_lemma target netmask t Hf).
    symmetry. apply delroute_no_match_lemma.
    eapply Forall_impl; [| exact Hf]. intros x Hx.
    rewrite route_matches_masked. exact Hx.
  - rewrite (delroute_first_match_lemma target netmask t l1 r l2 E Hf Hr).
    symmetry. apply delroute_first_match_lemma; [exact E | |].
    + eapply Forall_impl; [| exact Hf]. intros x Hx.
      rewrite route_matches_masked. exact Hx.
    + rewrite route_matches_masked. exact Hr.
Qed.

(** * lib_getservent.c: reading the services database *)

Section Getservent.

(** The bytes of freshly allocated memory, by offset: [malloc] and the
    grown part of a [realloc] are not initialised. *)
Variable junk : nat -> Ascii.ascii.
(** What [fopen(_PATH_SERVICES, "r")] opens: the file's bytes, or [None]
    when it fails. *)
Variable services : option (list Ascii.ascii).

Definition bytes := list Ascii.ascii.

Definition NUL : Ascii.ascii := Ascii.ascii_of_nat 0.
Definition TAB : Ascii.ascii := Ascii.ascii_of_nat 9.
Definition NL : Ascii.ascii := Ascii.ascii_of_nat 10.
Definition SP : Ascii.ascii := Ascii.ascii_of_nat 32.
Definition HASH : Ascii.ascii := Ascii.ascii_of_nat 35.
Definition PLUS : Ascii.ascii := Ascii.ascii_of_nat 43.
Definition COMMA : Ascii.ascii := Ascii.ascii_of_nat 44.
Definition MINUS : Ascii.ascii := Ascii.ascii_of_nat 45.
Definition SLASH : Ascii.ascii := Ascii.ascii_of_nat 47.

Definition BUFSIZ : nat := 1024.
Definition USHRT_MAX : Z := 65535.

(** Whether the next allocation succeeds, in call order; an allocation
    with no entry succeeds. *)
Definition alloc_call (al : list bool) : bool * list bool :=
  match al with
  | [] => (true, [])
  | b :: t => (b, t)
  end.

Definition malloc_bytes (n : nat) : bytes := map junk (seq 0 n).

(** [realloc]: the first [n] bytes kept, the new ones not initialised. *)
Definition realloc_bytes (b : bytes) (n : nat) : bytes :=
  firstn n b ++ map junk (seq (length b) (n - length b)).

Definition write_at (m : bytes) (off : nat) (d : bytes) : bytes :=
  firstn off m ++ d ++ skipn (off + length d) m.

(** The characters [fgets] takes: at most [k], up to and including a
    newline. *)
Fixpoint fgets_take (k : nat) (f : bytes) : bytes * bytes :=
  match k, f with
  | O, _ => ([], f)
  | _, [] => ([], [])
  | S k', c :: f' =>
    if Ascii.eqb c NL then ([c], f')
    else let '(ch, r) := fgets_take k' f' in (c :: ch, r)
  end.

(** [fgets(&m[off], n, fp)] on the unread bytes [f]: [None] at end of file,
    else the memory with the characters and a NUL stored at [off]. *)
Definition fgets (m : bytes) (off n : nat) (f : bytes) : option (bytes * bytes) :=
  match f with
  | [] => None
  | _ :: _ =>
    let '(ch, r) := fgets_take (n - 1) f in Some (write_at m off (ch ++ [NUL]), r)
  end.

(** [strchr(&m[i], '\n')]: the index of the first newline before a NUL. *)
Fixpoint scan_nl (l : bytes) (j : nat) : option nat :=
  match l with
  | [] => None
  | c :: l' =>
    if Ascii.eqb c NL then Some j
    else if Ascii.eqb c NUL then None
    else scan_nl l' (S j)
  end.

Definition strchr_nl (m : bytes) (i : nat) : option nat := scan_nl (skipn i m) i.

(** The statics of [fgetln]: [buf] ([None] is NULL) and [bufsiz]. *)
Record fgetln_s := mk_fl {
  fl_buf : option bytes;
  fl_bufsiz : nat
}.

(** The [while] loop of [fgetln]; [len] is [*len]. Each turn reads at
    least one byte, so [fuel] is the number of unread bytes plus one. The
    result: the line ([buf] and [*len]) or NULL, the statics, the unread
    bytes and the remaining allocation results. *)
Fixpoint fgetln_loop (fuel : nat) (buf : bytes) (bufsiz len : nat) (f : bytes)
  (al : list bool) : option (bytes * nat) * fgetln_s * bytes * list bool :=
  match fuel with
  | O => (None, mk_fl (Some buf) bufsiz, f, al)
  | S fuel' =>
    match strchr_nl buf len with
    | Some j => (Some (buf, S j), mk_fl (Some buf) bufsiz, f, al)
    | None =>
      let nbufsiz := (bufsiz + BUFSIZ)%nat in
      let '(ok, al1) := alloc_call al in
      if negb ok then (None, mk_fl None bufsiz, f, al1)    (* free(buf) *)
      else
        let nbuf := realloc_bytes buf nbufsiz in
        match fgets nbuf bufsiz BUFSIZ f with
        | None => (Some (nbuf, bufsiz), mk_fl (Some nbuf) bufsiz, f, al1)
        | Some (nbuf', f') => fgetln_loop fuel' nbuf' nbufsiz bufsiz f' al1
        end
    end
  end.

Definition fgetln_body (buf : bytes) (bufsiz : nat) (f : bytes) (al : list bool)
  : option (bytes * nat) * fgetln_s * bytes * list bool :=
  match fgets buf 0 bufsiz f with
  | None => (None, mk_fl (Some buf) bufsiz, f, al)
  | Some (buf', f') => fgetln_loop (S (length f')) buf' bufsiz 0 f' al
  end.

Definition fgetln (st : fgetln_s) (f : bytes) (al : list bool)
  : option (bytes * nat) * fgetln_s * bytes * list bool :=
  match fl_buf st with
  | None =>
    let '(ok, al1) := alloc_call al in
    if ok then fgetln_body (malloc_bytes BUFSIZ) BUFSIZ f al1
    else (None, mk_fl None BUFSIZ, f, al1)
  | Some b => fgetln_body b (fl_bufsiz st) f al
  end.

Definition is_sptab (c : Ascii.ascii) : bool := Ascii.eqb c SP || Ascii.eqb c TAB.
Definition is_comma_slash (c : Ascii.ascii) : bool :=
  Ascii.eqb c COMMA || Ascii.eqb c SLASH.
(** [isspace] in the C locale. *)
Definition is_space (c : Ascii.ascii) : bool :=
  let n := Ascii.nat_of_ascii c in Nat.eqb n 32 || (Nat.leb 9 n && Nat.leb n 13).
Definition is_digit (c : Ascii.ascii) : bool :=
  let n := Ascii.nat_of_ascii c in Nat.leb 48 n && Nat.leb n 57.
Definition digit_val (c : Ascii.ascii) : Z := Z.of_nat (Ascii.nat_of_ascii c - 48).

(** The C string a byte array holds: up to the first NUL. *)
Fixpoint cstr (l : bytes) : bytes :=
  match l with
  | [] => []
  | c :: l' => if Ascii.eqb c NUL then [] else c :: cstr l'
  end.

Fixpoint index_of (x : Ascii.ascii) (l : bytes) : option nat :=
  match l with
  | [] => None
  | c :: l' =>
    if Ascii.eqb c x then Some O
    else match index_of x l' with Some i => Some (S i) | None => None end
  end.

(** [strpbrk] and cutting there with [*p++ = '\0']: the part before the
    first delimiter and the part after it. *)
Fixpoint split_pbrk (delim : Ascii.ascii -> bool) (l : bytes)
  : option (bytes * bytes) :=
  match l with
  | [] => None
  | c :: l' =>
    if delim c then Some ([], l')
    else match split_pbrk delim l' with
         | Some (a, b) => Some (c :: a, b)
         | None => None
         end
  end.

Fixpoint skip_while (p : Ascii.ascii -> bool) (l : bytes) : bytes :=
  match l with
  | [] => []
  | c :: l' => if p c then skip_while p l' else l
  end.

Fixpoint digits_val (l : bytes) (acc : Z) : Z * bytes :=
  match l with
  | c :: l' => if is_digit c then digits_val l' (acc * 10 + digit_val c) else (acc, l)
  | [] => (acc, [])
  end.

(** [l = strtol(p, &endp, 10)] with the test [endp == p || *endp != '\0']:
    [None] when the test rejects the field. *)
Definition strtol_field (s : bytes) : option Z :=
  let s1 := skip_while is_space s in
  let '(neg, s2) :=
    match s1 with
    | c :: t => if Ascii.eqb c MINUS then (true, t)
                else if Ascii.eqb c PLUS then (false, t) else (false, s1)
    | [] => (false, s1)
    end in
  match s2 with
  | c :: _ =>
    if is_digit c then
      let '(v, rest) := digits_val s2 0 in
      match rest with
      | [] => Some (if neg then - v else v)
      | _ :: _ => None
      end
    else None
  | [] => None
  end.

(** The checks of a line read by [fgetln] up to the copy into [sd->line]:
    [None] for [goto again] (empty line, or [#] or a newline first), else
    the line as the C string the parsing works on (the newline dropped,
    cut at the first [#]). *)
Definition line_view (raw : bytes) : option bytes :=
  match raw with
  | [] => None
  | c :: _ =>
    if Ascii.eqb c HASH || Ascii.eqb c NL then None
    else
      let len1 := if Ascii.eqb (last raw NUL) NL then (length raw - 1)%nat
                  else length raw in
      let r1 := firstn len1 raw in
      let r2 := match index_of HASH r1 with Some i => firstn i r1 | None => r1 end in
      Some (cstr r2)
  end.

(** Name, port and what follows the [,] or [/], or [None] for
    [goto again]. *)
Definition parse_entry (cv : bytes) : option (bytes * Z * bytes) :=
  match split_pbrk is_sptab cv with
  | None => None
  | Some (name, r) =>
    match split_pbrk is_comma_slash (skip_while is_sptab r) with
    | None => None
    | Some (port, after) =>
      match strtol_field port with
      | None => None
      | Some l => if (l <? 0) || (USHRT_MAX <? l) then None else Some (name, l, after)
      end
    end
  end.

(** [htons] on a little-endian target. *)
Definition htons (x : Z) : Z :=
  Z.lor (Z.shiftl (Z.land x 255) 8) (Z.land (Z.shiftr x 8) 255).

(** The alias loop: [cp] ([None] is NULL), [q] the next free slot and
    [max] the slots of [sd->aliases]; [None] when the [realloc] fails. *)
Fixpoint alias_loop (fuel : nat) (cp : option bytes) (q max : nat)
  (acc : list bytes) (al : list bool)
  : option (list bytes * nat) * list bool :=
  match fuel with
  | O => (Some (acc, max), al)
  | S fuel' =>
    match cp with
    | None | Some [] => (Some (acc, max), al)
    | Some (c :: t) =>
      if is_sptab c then alias_loop fuel' (Some t) q max acc al
      else
        let '(ok, max', al1) :=
          if Nat.eqb q (max - 1) then
            let '(b, al1) := alloc_call al in (b, (2 * max)%nat, al1)
          else (true, max, al) in
        if negb ok then (None, al1)
        else
          match split_pbrk is_sptab (c :: t) with
          | None => alias_loop fuel' None (S q) max' (acc ++ [c :: t]) al1
          | Some (w, r) => alias_loop fuel' (Some r) (S q) max' (acc ++ [w]) al1
          end
    end
  end.

Record servent := mk_servent {
  s_name : bytes;
  s_port : Z;
  s_proto : bytes;
  s_aliases : list bytes
}.

(** [struct servent_data]: the open file as its unread bytes ([None] is a
    NULL [fp]), [maxaliases] ([aliases] is NULL exactly when it is 0) and
    [stayopen]; [line] only matters through its allocation. *)
Record servent_data := mk_sd {
  sd_fp : option bytes;
  sd_maxaliases : nat;
  sd_stayopen : bool
}.

Definition set_fp (sd : servent_data) (f : option bytes) : servent_data :=
  mk_sd f (sd_maxaliases sd) (sd_stayopen sd).
Definition set_maxaliases (sd : servent_data) (m : nat) : servent_data :=
  mk_sd (sd_fp sd) m (sd_stayopen sd).

Definition endservent_r (sd : servent_data) : servent_data := mk_sd None 0 false.

Definition setservent_r (f : bool) (sd : servent_data) : servent_data :=
  match sd_fp sd with
  | None => mk_sd services (sd_maxaliases sd) (sd_stayopen sd || f)
  | Some _ => mk_sd services (sd_maxaliases sd) (sd_stayopen sd || f)  (* rewind *)
  end.

(** What a call of [getservent_r] gives: the return value, the entry
    filled in when it is 0, and the new state. *)
Definition serv_result :=
  (Z * option servent * servent_data * fgetln_s * list bool)%type.

(** From the label [again:] on, with the file open on the unread bytes
    [f]; each turn reads a line, so [fuel] is the unread bytes plus one. *)
Fixpoint getservent_again (fuel : nat) (sd : servent_data) (fl : fgetln_s)
  (f : bytes) (al : list bool) : serv_result :=
  match fuel with
  | O => (-1, None, set_fp sd (Some f), fl, al)
  | S fuel' =>
    let '(res, fl1, f1, al1) := fgetln fl f al in
    let sd1 := set_fp sd (Some f1) in
    match res with
    | None => (-1, None, sd1, fl1, al1)
    | Some (buf, len) =>
      match line_view (firstn len buf) with
      | None => getservent_again fuel' sd1 fl1 f1 al1
      | Some cv =>
        let '(ok, al2) := alloc_call al1 in            (* realloc(sd->line) *)
        if negb ok then (-1, None, sd1, fl1, al2)
        else
          match parse_entry cv with
          | None => getservent_again fuel' sd1 fl1 f1 al2
          | Some (name, l, after) =>
            let '(ok2, max, al3) :=
              if Nat.eqb (sd_maxaliases sd1) 0 then
                let '(b, a) := alloc_call al2 in (b, 10%nat, a)   (* calloc *)
              else (true, sd_maxaliases sd1, al2) in
            if negb ok2 then (-1, None, endservent_r sd1, fl1, al3)
            else
              let '(proto, cp) :=
                match split_pbrk is_sptab after with
                | None => (after, None)
                | Some (pr, r) => (pr, Some r)
                end in
              match alias_loop (S (length after)) cp 0 max [] al3 with
              | (None, al4) => (-1, None, endservent_r sd1, fl1, al4)
              | (Some (aliases, max'), al4) =>
                (0, Some (mk_servent name (htons l) proto aliases),
                 set_maxaliases sd1 max', fl1, al4)
              end
          end
      end
    end
  end.

Definition getservent_r (sd : servent_data) (fl : fgetln_s) (al : list bool)
  : serv_result :=
  match sd_fp sd with
  | Some f => getservent_again (S (length f)) sd fl f al
  | None =>
    match services with
    | None => (-1, None, sd, fl, al)
    | Some f => getservent_again (S (length f)) (set_fp sd (Some f)) fl f al
    end
  end.

End Getservent.

Lemma alias_loop_capacity (fuel : nat) :
  forall cp q max acc al l m al',
  (1 <= max)%nat -> (q < max)%nat -> q = length acc ->
  alias_loop fuel cp q max acc al = (Some (l, m), al') ->
  (length l < m)%nat /\ (max <= m)%nat.
Proof.
  induction fuel as [| fuel IH]; intros cp q max acc al l m al' H1 H2 H3 E;
    cbn [alias_loop] in E.
  - inversion E; subst. lia.
  - destruct cp as [[| c t] |]; try (inversion E; subst; lia).
    destruct (is_sptab c); [exact (IH _ _ _ _ _ _ _ _ H1 H2 H3 E) |].
    destruct (Nat.eqb q (max - 1)) eqn:Eq.
    + apply Nat.eqb_eq in Eq.
      destruct (alloc_call al) as [b al1]. destruct b; cbn [negb] in E;
        [| discriminate].
      destruct (split_pbrk is_sptab (c :: t)) as [[w r] |];
        apply IH in E; try lia; rewrite length_app; cbn; lia.
    + apply Nat.eqb_neq in Eq. cbn [negb] in E.
      destruct (split_pbrk is_sptab (c :: t)) as [[w r] |];
        apply IH in E; try lia; rewrite length_app; cbn; lia.
Qed.

Lemma getservent_again_capacity junk (fuel : nat) :
  forall sd fl f al se sd' fl' al',
  getservent_again junk fuel sd fl f al = (0, Some se, sd', fl', al') ->
  (length (s_aliases se) < sd_maxaliases sd')%nat.
Proof.
  induction fuel as [| fuel IH]; intros sd fl f al se sd' fl' al' E;
    cbn [getservent_again] in E; [discriminate |].
  destruct (fgetln junk fl f al) as [[[res fl1] f1] al1].
  destruct res as [[buf len] |]; [| discriminate].
  destruct (line_view (firstn len buf)) as [cv |]; [| eapply IH; exact E].
  destruct (alloc_call al1) as [ok al2]; destruct ok; cbn [negb] in E;
    [| discriminate].
  destruct (parse_entry cv) as [[[name l] after] |]; [| eapply IH; exact E].
  set (sd1 := set_fp sd (Some f1)) in E.
  assert (Hm : exists ok2 max al3,
    (if Nat.eqb (sd_maxaliases sd1) 0 then
       let '(b, a) := alloc_call al2 in (b, 10%nat, a)
     else (true, sd_maxaliases sd1, al2)) = (ok2, max, al3) /\ (1 <= max)%nat).
  { destruct (Nat.eqb (sd_maxaliases sd1) 0) eqn:Ez.
    - destruct (alloc_call al2) as [b a].
      do 3 eexists. split; [reflexivity | lia].
    - apply Nat.eqb_neq in Ez. do 3 eexists. split; [reflexivity | lia]. }
  destruct Hm as (ok2 & max & al3 & Hm & Hmax). rewrite Hm in E.
  destruct ok2; cbn [negb] in E; [| discriminate].
  destruct (match split_pbrk is_sptab after with
            | None => (after, None)
            | Some (pr, r) => (pr, Some r)
            end) as [proto cp].
  destruct (alias_loop (S (length after)) cp 0 max [] al3) as [[[als m] |] al4]
    eqn:Ea; [| discriminate].
  inversion E; subst; cbn.
  apply alias_loop_capacity in Ea; [tauto | lia | lia | reflexivity].
Qed.

(** The lines [getservent_r] reads as entries: a name, a space, decimal
    digits, [/], a protocol and aliases, each alias after one space. *)
Definition line_char (c : Ascii.ascii) : bool := negb (Ascii.eqb c NUL || Ascii.eqb c NL).
Definition plain_char (c : Ascii.ascii) : bool :=
  negb (Ascii.eqb c NUL || Ascii.eqb c NL || Ascii.eqb c HASH).
Definition word_char (c : Ascii.ascii) : bool := negb (is_sptab c) && plain_char c.
Definition is_word (w : bytes) : bool :=
  match w with [] => false | _ :: _ => forallb word_char w end.
Definition is_digits (d : bytes) : bool :=
  match d with [] => false | _ :: _ => forallb is_digit d end.

Definition serv_line (name digits proto : bytes) (aliases : list bytes) : bytes :=
  name ++ SP :: digits ++ SLASH :: proto ++ concat (map (cons SP) aliases).

Definition entry_ok (name digits proto : bytes) (aliases : list bytes) : bool :=
  is_word name && is_digits digits && forallb word_char proto && forallb is_word aliases.

(** A comment after an entry: nothing, or [#] and any characters. *)
Definition comment_ok (cm : bytes) : bool :=
  match cm with [] => true | c :: t => Ascii.eqb c HASH && forallb line_char t end.

(** A line [getservent_r] skips: empty or a comment. *)
Definition skip_line (l : bytes) : bool :=
  match l with [] => true | c :: _ => Ascii.eqb c HASH end
  && forallb line_char l && Nat.leb (length l) 1022.

(** The statics of [fgetln] as they are between calls: no buffer, or one
    of at least [BUFSIZ] bytes. *)
Definition fl_ok (st : fgetln_s) : Prop := fl_buf st = None \/ (BUFSIZ <= fl_bufsiz st)%nat.

Definition join_words (ws : list bytes) : bytes :=
  match ws with [] => [] | w :: ws' => w ++ concat (map (cons SP) ws') end.

Ltac all_chars := intros c; destruct c as [[] [] [] [] [] [] [] []]; vm_compute;
  first [intros H; discriminate H | intros; repeat split].

Lemma digit_char_props : forall c, is_digit c = true ->
  is_sptab c = false /\ is_comma_slash c = false /\ is_space c = false /\
  Ascii.eqb c MINUS = false /\ Ascii.eqb c PLUS = false /\ plain_char c = true.
Proof. all_chars. Qed.

Lemma word_char_props : forall c, word_char c = true ->
  is_sptab c = false /\ plain_char c = true.
Proof. all_chars. Qed.

Lemma sptab_char_props : forall c, is_sptab c = true -> plain_char c = true.
Proof. all_chars. Qed.

Lemma plain_char_props : forall c, plain_char c = true ->
  Ascii.eqb c NUL = false /\ Ascii.eqb c NL = false /\ Ascii.eqb c HASH = false /\
  line_char c = true.
Proof. all_chars. Qed.

Lemma line_char_props : forall c, line_char c = true ->
  Ascii.eqb c NUL = false /\ Ascii.eqb c NL = false.
Proof. all_chars. Qed.

Lemma firstn_line (a : bytes) x y : firstn (S (length a)) (a ++ x :: y) = a ++ [x].
Proof.
  induction a as [| c a IH]; [reflexivity | exact (f_equal (cons c) IH)].
Qed.

Lemma firstn_length_app (a b : bytes) : firstn (length a) (a ++ b) = a.
Proof.
  induction a as [| c a IH]; [reflexivity | exact (f_equal (cons c) IH)].
Qed.

Lemma fgets_take_line k (line rest : bytes) :
  forallb line_char line = true -> (length line < k)%nat ->
  fgets_take k (line ++ NL :: rest) = (line ++ [NL], rest).
Proof.
  revert k; induction line as [| c line IH]; intros k Hl Hk;
    (destruct k as [| k]; [cbn in Hk; lia |]).
  - reflexivity.
  - cbn [forallb] in Hl. cbn [app fgets_take]. apply andb_prop in Hl as [Hc Hl].
    destruct (line_char_props c Hc) as [_ ->].
    rewrite IH by (cbn in Hk; lia || assumption). reflexivity.
Qed.

Lemma scan_nl_line (line x : bytes) j :
  forallb line_char line = true -> scan_nl (line ++ NL :: x) j = Some (j + length line)%nat.
Proof.
  revert j; induction line as [| c line IH]; intros j Hl.
  - cbn. now rewrite Nat.add_0_r.
  - cbn [forallb] in Hl. cbn [app scan_nl length]. apply andb_prop in Hl as [Hc Hl].
    destruct (line_char_props c Hc) as [-> ->].
    rewrite IH by assumption. f_equal. lia.
Qed.

Lemma fgetln_body_short junk b B (line rest : bytes) :
  (BUFSIZ <= B)%nat -> forallb line_char line = true -> (length line <= 1022)%nat ->
  fgetln_body junk b B (line ++ NL :: rest) [] =
  (Some (line ++ NL :: NUL :: skipn (S (S (length line))) b, S (length line)),
   mk_fl (Some (line ++ NL :: NUL :: skipn (S (S (length line))) b)) B, rest, []).
Proof.
  intros HB Hl Hn. unfold fgetln_body.
  assert (Hw : write_at b 0 ((line ++ [NL]) ++ [NUL]) =
               line ++ NL :: NUL :: skipn (S (S (length line))) b).
  { unfold write_at. rewrite !length_app. cbn [firstn length app].
    rewrite <- app_assoc. cbn [app].
    replace (length line + 1 + 1)%nat with (S (S (length line))) by lia.
    rewrite <- app_assoc. reflexivity. }
  assert (Hf : fgets b 0 B (line ++ NL :: rest) =
               Some (line ++ NL :: NUL :: skipn (S (S (length line))) b, rest)).
  { unfold fgets. rewrite fgets_take_line by (assumption || (unfold BUFSIZ in HB; lia)).
    rewrite <- Hw. destruct (line ++ NL :: rest) eqn:E; [| reflexivity].
    destruct line; discriminate E. }
  rewrite Hf. cbn [fgetln_loop]. unfold strchr_nl. cbn [skipn].
  rewrite scan_nl_line by assumption. reflexivity.
Qed.

Lemma fgetln_short junk fl (line rest : bytes) :
  fl_ok fl -> forallb line_char line = true -> (length line <= 1022)%nat ->
  exists buf fl',
    fgetln junk fl (line ++ NL :: rest) [] = (Some (buf, S (length line)), fl', rest, []) /\
    firstn (S (length line)) buf = line ++ [NL] /\ fl_ok fl'.
Proof.
  intros Hfl Hl Hn. unfold fgetln.
  destruct fl as [[b |] B]; cbn [fl_buf fl_bufsiz].
  - destruct Hfl as [Hfl | Hfl]; [discriminate Hfl |]. cbn in Hfl.
    rewrite fgetln_body_short by assumption.
    do 2 eexists. split; [reflexivity |]. split; [apply firstn_line |].
    right. exact Hfl.
  - cbn [alloc_call]. rewrite fgetln_body_short by (assumption || reflexivity).
    do 2 eexists. split; [reflexivity |]. split; [apply firstn_line |].
    right. cbn. lia.
Qed.

Lemma forallb_impl (f g : Ascii.ascii -> bool) (l : bytes) :
  (forall c, f c = true -> g c = true) -> forallb f l = true -> forallb g l = true.
Proof.
  intros Hfg. induction l as [| c l IH]; cbn; [reflexivity |].
  intros H. apply andb_prop in H as [H1 H2]. rewrite Hfg, IH; auto.
Qed.

Lemma split_pbrk_app delim (a b : bytes) x :
  forallb (fun c => negb (delim c)) a = true -> delim x = true ->
  split_pbrk delim (a ++ x :: b) = Some (a, b).
Proof.
  intros Ha Hx. induction a as [| c a IH]; cbn [app split_pbrk].
  - now rewrite Hx.
  - cbn [forallb] in Ha. apply andb_prop in Ha as [Hc Ha].
    destruct (delim c); [discriminate Hc |]. now rewrite IH.
Qed.

Lemma split_pbrk_none delim (a : bytes) :
  forallb (fun c => negb (delim c)) a = true -> split_pbrk delim a = None.
Proof.
  intros Ha. induction a as [| c a IH]; cbn [split_pbrk]; [reflexivity |].
  cbn [forallb] in Ha. apply andb_prop in Ha as [Hc Ha].
  destruct (delim c); [discriminate Hc |]. now rewrite IH.
Qed.

Lemma index_of_plain_app (a b : bytes) :
  forallb plain_char a = true ->
  index_of HASH (a ++ b) = option_map (Nat.add (length a)) (index_of HASH b).
Proof.
  intros Ha. induction a as [| c a IH]; cbn [app index_of length].
  - destruct (index_of HASH b); reflexivity.
  - cbn [forallb] in Ha. apply andb_prop in Ha as [Hc Ha].
    destruct (plain_char_props c Hc) as (_ & _ & -> & _).
    rewrite IH by assumption. destruct (index_of HASH b); reflexivity.
Qed.

Lemma cstr_plain (a : bytes) : forallb plain_char a = true -> cstr a = a.
Proof.
  intros Ha. induction a as [| c a IH]; cbn [cstr]; [reflexivity |].
  cbn [forallb] in Ha. apply andb_prop in Ha as [Hc Ha].
  destruct (plain_char_props c Hc) as (-> & _). now rewrite IH.
Qed.

Lemma skip_while_stop p (a b : bytes) d :
  p d = false -> skip_while p ((d :: a) ++ b) = (d :: a) ++ b.
Proof. intros H. cbn. now rewrite H. Qed.

Lemma digits_val_all (l : bytes) acc :
  forallb is_digit l = true -> snd (digits_val l acc) = [].
Proof.
  revert acc; induction l as [| c l IH]; intros acc Hl; [reflexivity |].
  cbn [forallb] in Hl. apply andb_prop in Hl as [Hc Hl].
  cbn [digits_val]. rewrite Hc. apply IH, Hl.
Qed.

Lemma digits_val_nonneg (l : bytes) acc : 0 <= acc -> 0 <= fst (digits_val l acc).
Proof.
  revert acc; induction l as [| c l IH]; intros acc Hacc; [exact Hacc |].
  cbn [digits_val]. destruct (is_digit c); [| exact Hacc].
  apply IH. unfold digit_val. lia.
Qed.

Lemma strtol_digits (d : bytes) :
  is_digits d = true -> strtol_field d = Some (fst (digits_val d 0)).
Proof.
  destruct d as [| c t]; [discriminate |]. intros Hd.
  pose proof (digits_val_all (c :: t) 0 Hd) as Hr.
  cbn [is_digits forallb] in Hd. apply andb_prop in Hd as [Hc _].
  destruct (digit_char_props c Hc) as (_ & _ & Hs & Hm & Hp & _).
  unfold strtol_field. cbn [skip_while]. rewrite Hs, Hm, Hp, Hc.
  destruct (digits_val (c :: t) 0) as [v r]. cbn in Hr |- *. now subst r.
Qed.

Lemma plain_serv_line name digits proto aliases :
  entry_ok name digits proto aliases = true ->
  forallb plain_char (serv_line name digits proto aliases) = true.
Proof.
  unfold entry_ok, serv_line. intros H.
  apply andb_prop in H as [H Ha]. apply andb_prop in H as [H Hp].
  apply andb_prop in H as [Hn Hd].
  repeat progress (rewrite ?forallb_app; cbn [forallb]).
  replace (forallb plain_char name) with true.
  2:{ symmetry. destruct name; [discriminate |].
      refine (forallb_impl _ _ _ _ Hn). intros c Hc. apply word_char_props, Hc. }
  replace (forallb plain_char digits) with true.
  2:{ symmetry. destruct digits; [discriminate |].
      refine (forallb_impl _ _ _ _ Hd). intros c Hc. apply digit_char_props, Hc. }
  replace (forallb plain_char proto) with true.
  2:{ symmetry. refine (forallb_impl _ _ _ _ Hp). intros c Hc. apply word_char_props, Hc. }
  cbn. clear Hn Hd Hp. induction aliases as [| w ws IH]; [reflexivity |].
  cbn [forallb] in Ha. apply andb_prop in Ha as [Hw Ha].
  cbn [map concat]. rewrite forallb_app. cbn [forallb]. rewrite IH by assumption.
  destruct w; [discriminate |].
  rewrite (forallb_impl word_char plain_char); [reflexivity | | exact Hw].
  intros c Hc. apply word_char_props, Hc.
Qed.

Lemma line_view_plain (x cm : bytes) :
  forallb plain_char x = true -> x <> [] -> comment_ok cm = true ->
  line_view ((x ++ cm) ++ [NL]) = Some x.
Proof.
  intros Hx Hne Hcm. unfold line_view.
  remember ((x ++ cm) ++ [NL]) as raw eqn:Er.
  destruct raw as [| c0 r0]; [destruct x; discriminate Er || contradiction |].
  destruct x as [| c t]; [contradiction |].
  pose proof Er as Er'. injection Er' as Ec _. subst c0.
  pose proof Hx as Hx'. cbn [forallb] in Hx'. apply andb_prop in Hx' as [Hc _].
  destruct (plain_char_props c Hc) as (_ & -> & -> & _). cbn [orb].
  rewrite Er, last_last, Ascii.eqb_refl, length_app. cbn [length].
  replace (length ((c :: t) ++ cm) + 1 - 1)%nat with (length ((c :: t) ++ cm)) by lia.
  rewrite firstn_length_app, index_of_plain_app by assumption.
  destruct cm as [| h cm].
  - cbn [index_of option_map]. rewrite app_nil_r. now rewrite cstr_plain.
  - cbn in Hcm. apply andb_prop in Hcm as [Hh _]. apply Ascii.eqb_eq in Hh. subst h.
    cbn [index_of option_map]. rewrite Ascii.eqb_refl. cbn [option_map].
    rewrite Nat.add_0_r, firstn_length_app. now rewrite cstr_plain.
Qed.

Lemma parse_entry_line_port name digits proto aliases (sp : bytes) :
  entry_ok name digits proto aliases = true -> forallb is_sptab sp = true ->
  parse_entry (serv_line name digits proto aliases ++ sp) =
  if USHRT_MAX <? fst (digits_val digits 0) then None
  else Some (name, fst (digits_val digits 0), proto ++ concat (map (cons SP) aliases) ++ sp).
Proof.
  intros H Hsp.
  assert (E : serv_line name digits proto aliases ++ sp =
              name ++ SP :: (digits ++ SLASH :: (proto ++ concat (map (cons SP) aliases) ++ sp))).
  { unfold serv_line. repeat (rewrite <- app_assoc || rewrite <- app_comm_cons).
    reflexivity. }
  unfold entry_ok in H.
  apply andb_prop in H as [H _]. apply andb_prop in H as [H _].
  apply andb_prop in H as [Hn Hd].
  unfold parse_entry. rewrite E.
  rewrite split_pbrk_app; [| destruct name; [discriminate |];
    refine (forallb_impl _ _ _ _ Hn); intros c Hc;
    now rewrite (proj1 (word_char_props c Hc)) | reflexivity].
  pose proof (strtol_digits digits Hd) as Hs.
  destruct digits as [| d ds]; [discriminate |].
  pose proof Hd as Hd'. cbn [is_digits forallb] in Hd'. apply andb_prop in Hd' as [Hc _].
  rewrite skip_while_stop by apply (digit_char_props d Hc).
  rewrite split_pbrk_app; [| refine (forallb_impl _ _ _ _ Hd); intros c Hc';
    now rewrite (proj1 (proj2 (digit_char_props c Hc'))) | reflexivity].
  rewrite Hs.
  pose proof (digits_val_nonneg (d :: ds) 0 (Z.le_refl 0)).
  replace (fst (digits_val (d :: ds) 0) <? 0) with false
    by (symmetry; apply Z.ltb_ge; lia).
  reflexivity.
Qed.

Lemma parse_entry_line name digits proto aliases (sp : bytes) :
  entry_ok name digits proto aliases = true -> forallb is_sptab sp = true ->
  fst (digits_val digits 0) <= USHRT_MAX ->
  parse_entry (serv_line name digits proto aliases ++ sp) =
  Some (name, fst (digits_val digits 0), proto ++ concat (map (cons SP) aliases) ++ sp).
Proof.
  intros H Hsp Hv. rewrite parse_entry_line_port by assumption.
  replace (USHRT_MAX <? fst (digits_val digits 0)) with false
    by (symmetry; apply Z.ltb_ge; lia).
  reflexivity.
Qed.

Lemma alias_skip_all (y : bytes) fuel q max acc al :
  forallb is_sptab y = true -> (length y < fuel)%nat ->
  alias_loop fuel (Some y) q max acc al = (Some (acc, max), al).
Proof.
  revert fuel; induction y as [| c y IH]; intros fuel Hy Hf;
    (destruct fuel as [| fuel]; [cbn in Hf; lia |]).
  - reflexivity.
  - cbn [forallb] in Hy. apply andb_prop in Hy as [Hc Hy].
    cbn [alias_loop]. rewrite Hc. apply IH; [assumption | cbn in Hf; lia].
Qed.

Lemma alias_skip_prefix (sp0 z : bytes) fuel q max acc al :
  forallb is_sptab sp0 = true ->
  alias_loop (length sp0 + fuel) (Some (sp0 ++ z)) q max acc al =
  alias_loop fuel (Some z) q max acc al.
Proof.
  induction sp0 as [| c sp0 IH]; intros H; [reflexivity |].
  cbn [forallb] in H. apply andb_prop in H as [Hc H].
  cbn [length Nat.add app alias_loop]. rewrite Hc. apply IH, H.
Qed.

(** Given words separated by single spaces, with blanks before and
    after, the alias loop collects the words. *)
Lemma alias_loop_words (ws : list bytes) (sp : bytes) :
  forall sp0 fuel q max acc,
  forallb is_word ws = true -> forallb is_sptab sp0 = true ->
  forallb is_sptab sp = true ->
  (length (sp0 ++ join_words ws ++ sp) < fuel)%nat ->
  (1 <= max)%nat -> (q < max)%nat ->
  exists m, alias_loop fuel (Some (sp0 ++ join_words ws ++ sp)) q max acc [] =
            (Some (acc ++ ws, m), []).
Proof.
  induction ws as [| w ws' IH]; intros sp0 fuel q max acc Hws Hsp0 Hsp Hf Hm Hq.
  - exists max. rewrite app_nil_r. apply alias_skip_all; [| exact Hf].
    cbn [join_words app]. rewrite forallb_app, Hsp0, Hsp. reflexivity.
  - cbn [forallb] in Hws. apply andb_prop in Hws as [Hw Hws].
    rewrite !length_app in Hf.
    replace fuel with (length sp0 + (fuel - length sp0))%nat by lia.
    rewrite alias_skip_prefix by exact Hsp0.
    cbn [join_words] in Hf |- *. rewrite length_app in Hf. rewrite <- app_assoc.
    destruct w as [| c w']; [discriminate Hw |].
    destruct (fuel - length sp0)%nat as [| f2] eqn:Ef; [cbn in Hf; lia |].
    assert (Hc : is_sptab c = false).
    { cbn [is_word forallb] in Hw. apply andb_prop in Hw as [Hw _].
      apply (word_char_props c Hw). }
    assert (Hwn : forallb (fun c => negb (is_sptab c)) (c :: w') = true).
    { refine (forallb_impl word_char _ _ _ Hw). intros c' Hc'.
      now rewrite (proj1 (word_char_props c' Hc')). }
    set (max' := if Nat.eqb q (max - 1) then (2 * max)%nat else max).
    assert (Hm' : (1 <= max')%nat /\ (S q < max')%nat).
    { unfold max'. destruct (Nat.eqb q (max - 1)) eqn:Eq;
        [apply Nat.eqb_eq in Eq | apply Nat.eqb_neq in Eq]; lia. }
    assert (Hstep : forall r : bytes,
      alias_loop (S f2) (@Some bytes ((c :: w') ++ r)) q max acc [] =
      match split_pbrk is_sptab ((c :: w') ++ r) with
      | None => alias_loop f2 None (S q) max' (acc ++ [(c :: w') ++ r]) []
      | Some (w0, r0) => alias_loop f2 (@Some bytes r0) (S q) max' (acc ++ [w0]) []
      end).
    { intros r. cbn [app alias_loop]. rewrite Hc. unfold max'.
      destruct (Nat.eqb q (max - 1)); reflexivity. }
    destruct ws' as [| w2 ws''].
    + cbn [map concat] in Hf |- *. rewrite app_nil_l.
      destruct sp as [| s sp'].
      * rewrite (Hstep []), app_nil_r.
        rewrite split_pbrk_none by exact Hwn.
        exists max'. destruct f2; reflexivity.
      * cbn [forallb] in Hsp. apply andb_prop in Hsp as [Hs Hsp'].
        rewrite Hstep, split_pbrk_app by assumption.
        exists max'. apply alias_skip_all; [exact Hsp' | cbn in Hf; lia].
    + assert (ER : concat (map (cons SP) (w2 :: ws'')) ++ sp =
                   SP :: (join_words (w2 :: ws'') ++ sp)) by reflexivity.
      rewrite ER, Hstep, split_pbrk_app by (assumption || reflexivity).
      cbn [forallb] in Hws.
      destruct (IH [] f2 (S q) max' (acc ++ [c :: w']) Hws eq_refl Hsp)
        as [m Hm2]; [| tauto | tauto |].
      * pose proof (f_equal (@length Ascii.ascii) ER) as EL.
        rewrite !length_app in EL. cbn [length] in EL, Hf.
        pose proof (length_app (join_words (w2 :: ws'')) sp).
        cbn [app]. rewrite length_app. lia.
      * exists m. cbn [app] in Hm2. rewrite <- app_assoc in Hm2. exact Hm2.
Qed.

Lemma aliases_of_line (proto : bytes) (aliases : list bytes) (sp : bytes) max :
  forallb word_char proto = true -> forallb is_word aliases = true ->
  forallb is_sptab sp = true -> (1 <= max)%nat ->
  let after : bytes := proto ++ concat (map (cons SP) aliases) ++ sp in
  exists m cp,
    match split_pbrk is_sptab after with
    | None => (after, @None bytes)
    | Some (pr, r) => (pr, @Some bytes r)
    end = (proto, cp) /\
    alias_loop (S (length after)) cp 0 max [] [] = (Some (aliases, m), []).
Proof.
  intros Hp Ha Hsp Hm after.
  assert (Hpn : forallb (fun c => negb (is_sptab c)) proto = true).
  { refine (forallb_impl word_char _ _ _ Hp). intros c Hc.
    now rewrite (proj1 (word_char_props c Hc)). }
  subst after. destruct aliases as [| a als].
  - cbn [map concat app]. destruct sp as [| s sp'].
    + rewrite app_nil_r, split_pbrk_none by exact Hpn.
      exists max, None. split; reflexivity.
    + cbn [forallb] in Hsp. apply andb_prop in Hsp as [Hs Hsp'].
      rewrite split_pbrk_app by assumption.
      exists max, (Some sp'). split; [reflexivity |].
      apply alias_skip_all; [exact Hsp' | rewrite length_app; cbn; lia].
  - assert (ER : concat (map (cons SP) (a :: als)) ++ sp =
                 SP :: ([] ++ join_words (a :: als) ++ sp)) by reflexivity.
    rewrite ER, split_pbrk_app by (assumption || reflexivity).
    destruct (alias_loop_words (a :: als) sp [] (S (length (proto ++ SP ::
      ([] ++ join_words (a :: als) ++ sp)))) 0 max [] Ha eq_refl Hsp)
      as [m Hm2]; [rewrite !length_app; cbn [length]; rewrite ?length_app; cbn [length]; lia | exact Hm | exact Hm |].
    exists m, (Some ([] ++ join_words (a :: als) ++ sp)). split; [reflexivity |].
    exact Hm2.
Qed.

Lemma line_char_entry name digits proto aliases (sp cm : bytes) :
  entry_ok name digits proto aliases = true -> forallb is_sptab sp = true ->
  comment_ok cm = true ->
  forallb line_char (serv_line name digits proto aliases ++ sp ++ cm) = true.
Proof.
  intros H Hsp Hcm. rewrite !forallb_app.
  rewrite (forallb_impl plain_char line_char); [| apply plain_char_props |
    apply plain_serv_line, H].
  rewrite (forallb_impl is_sptab line_char); [| | exact Hsp].
  2:{ intros c Hc. apply plain_char_props, sptab_char_props, Hc. }
  destruct cm as [| h t]; [reflexivity |].
  cbn in Hcm |- *. apply andb_prop in Hcm as [Hh Ht].
  apply Ascii.eqb_eq in Hh. subst h. rewrite Ht. reflexivity.
Qed.

Lemma getservent_again_skip junk fuel sd fl (l f : bytes) :
  fl_ok fl -> skip_line l = true ->
  exists fl', fl_ok fl' /\
    getservent_again junk (S fuel) sd fl (l ++ NL :: f) [] =
    getservent_again junk fuel (set_fp sd (Some f)) fl' f [].
Proof.
  intros Hfl Hs. unfold skip_line in Hs.
  apply andb_prop in Hs as [Hs Hn]. apply andb_prop in Hs as [Hh Hl].
  apply Nat.leb_le in Hn.
  destruct (fgetln_short junk fl l f Hfl Hl Hn) as (buf & fl' & E & Eb & Hfl').
  exists fl'. split; [exact Hfl' |].
  cbn [getservent_again]. rewrite E. cbv beta iota. rewrite Eb.
  destruct l as [| c t]; [reflexivity |].
  unfold line_view. cbn [app]. rewrite Hh. reflexivity.
Qed.

Lemma getservent_again_entry junk fuel sd fl name digits proto aliases (sp cm rest : bytes) :
  fl_ok fl -> entry_ok name digits proto aliases = true ->
  forallb is_sptab sp = true -> comment_ok cm = true ->
  (length (serv_line name digits proto aliases ++ sp ++ cm) <= 1022)%nat ->
  fst (digits_val digits 0) <= USHRT_MAX ->
  exists sd' fl',
    getservent_again junk (S fuel) sd fl
      ((serv_line name digits proto aliases ++ sp ++ cm) ++ NL :: rest) [] =
    (0, Some (mk_servent name (htons (fst (digits_val digits 0))) proto aliases),
     sd', fl', []) /\ sd_fp sd' = Some rest /\ fl_ok fl'.
Proof.
  intros Hfl H Hsp Hcm Hn Hv.
  destruct (fgetln_short junk fl _ rest Hfl (line_char_entry _ _ _ _ _ _ H Hsp Hcm) Hn)
    as (buf & fl' & E & Eb & Hfl').
  cbn [getservent_again]. rewrite E. cbv beta iota. rewrite Eb.
  rewrite (app_assoc (serv_line name digits proto aliases) sp cm).
  rewrite line_view_plain; [| rewrite forallb_app, plain_serv_line by exact H;
    refine (forallb_impl _ _ _ sptab_char_props Hsp) | | exact Hcm].
  2:{ unfold entry_ok in H. destruct name; [discriminate H | discriminate]. }
  cbn [alloc_call negb]. rewrite parse_entry_line by assumption.
  unfold entry_ok in H. apply andb_prop in H as [H Ha]. apply andb_prop in H as [_ Hp].
  destruct (Nat.eqb (sd_maxaliases (set_fp sd (Some rest))) 0) eqn:Ez;
    cbn [alloc_call negb].
  - destruct (aliases_of_line proto aliases sp 10 Hp Ha Hsp) as (m & cp & E1 & E2);
      [lia |].
    rewrite E1, E2. do 2 eexists. split; [reflexivity | split; [reflexivity | exact Hfl']].
  - apply Nat.eqb_neq in Ez.
    destruct (aliases_of_line proto aliases sp (sd_maxaliases (set_fp sd (Some rest)))
      Hp Ha Hsp) as (m & cp & E1 & E2);
      [exact (proj1 (Nat.neq_0_lt_0 _) Ez) |].
    rewrite E1, E2. do 2 eexists. split; [reflexivity | split; [reflexivity | exact Hfl']].
Qed.

Lemma getservent_again_skips junk (pre : list bytes) :
  forall fuel sd fl (f : bytes),
  fl_ok fl -> forallb skip_line pre = true ->
  (length (concat (map (fun l => l ++ [NL]) pre) ++ f) < fuel)%nat ->
  exists fuel' sd0 fl', fl_ok fl' /\ (length f < fuel')%nat /\
    getservent_again junk fuel sd fl (concat (map (fun l => l ++ [NL]) pre) ++ f) [] =
    getservent_again junk fuel' sd0 fl' f [].
Proof.
  induction pre as [| l pre IH]; intros fuel sd fl f Hfl Hpre Hf.
  - exists fuel, sd, fl. auto.
  - cbn [forallb] in Hpre. apply andb_prop in Hpre as [Hl Hpre].
    cbn [map concat] in Hf |- *. rewrite <- !app_assoc. cbn [app].
    rewrite <- app_assoc in Hf. rewrite length_app in Hf. cbn [length app] in Hf.
    destruct fuel as [| fuel]; [lia |].
    destruct (getservent_again_skip junk fuel sd fl l
      (concat (map (fun l => l ++ [NL]) pre) ++ f) Hfl Hl) as (fl1 & Hfl1 & E).
    rewrite E. apply IH; [exact Hfl1 | exact Hpre |].
    rewrite length_app in Hf. cbn [length] in Hf. lia.
Qed.

(** X17. When [getservent_r] returns 0, the aliases it stored are fewer
    than [sd->maxaliases], so the closing [*q = NULL] is written inside
    the [sd->aliases] array. *)
Theorem getservent_aliases_fit junk services sd fl al se sd' fl' al' :
  getservent_r junk services sd fl al = (0, Some se, sd', fl', al') ->
  (length (s_aliases se) < sd_maxaliases sd')%nat.
Proof.
  unfold getservent_r. destruct (sd_fp sd) as [f |].
  - apply getservent_again_capacity.
  - destruct services as [f |]; [apply getservent_again_capacity | discriminate].
Qed.

(** X18. After comment and blank lines, a line [name port/proto alias ...]
    (single spaces, optional blanks and [#] comment at the end, at most
    1022 characters) is returned by [getservent_r] as that entry, with
    the port in network byte order, and the file is left after the
    line. *)
Theorem getservent_reads_entry junk services sd fl pre name digits proto aliases
  (sp cm rest : bytes) :
  sd_fp sd = Some (concat (map (fun l => l ++ [NL]) pre) ++
                   (serv_line name digits proto aliases ++ sp ++ cm) ++ NL :: rest) ->
  fl_ok fl -> forallb skip_line pre = true ->
  entry_ok name digits proto aliases = true ->
  forallb is_sptab sp = true -> comment_ok cm = true ->
  (length (serv_line name digits proto aliases ++ sp ++ cm) <= 1022)%nat ->
  fst (digits_val digits 0) <= USHRT_MAX ->
  exists sd' fl',
    getservent_r junk services sd fl [] =
    (0, Some (mk_servent name (htons (fst (digits_val digits 0))) proto aliases),
     sd', fl', []) /\ sd_fp sd' = Some rest /\ fl_ok fl'.
Proof.
  intros Hfp Hfl Hpre H Hsp Hcm Hn Hv. unfold getservent_r. rewrite Hfp.
  destruct (getservent_again_skips junk pre (S (length (concat (map (fun l => l ++ [NL]) pre)
    ++ (serv_line name digits proto aliases ++ sp ++ cm) ++ NL :: rest))) sd fl
    ((serv_line name digits proto aliases ++ sp ++ cm) ++ NL :: rest) Hfl Hpre)
    as (fuel' & sd0 & fl1 & Hfl1 & Hf & E); [lia |].
  rewrite E. destruct fuel' as [| fuel']; [lia |].
  apply getservent_again_entry; assumption.
Qed.

(** X19. A line in the entry format whose port is above [USHRT_MAX] is
    skipped: [getservent_r] goes back to [again] and reads the next
    line. *)
Theorem getservent_skips_port_out_of_range junk fuel sd fl name digits proto aliases
  (sp cm rest : bytes) :
  fl_ok fl -> entry_ok name digits proto aliases = true ->
  forallb is_sptab sp = true -> comment_ok cm = true ->
  (length (serv_line name digits proto aliases ++ sp ++ cm) <= 1022)%nat ->
  USHRT_MAX < fst (digits_val digits 0) ->
  exists fl', fl_ok fl' /\
    getservent_again junk (S fuel) sd fl
      ((serv_line name digits proto aliases ++ sp ++ cm) ++ NL :: rest) [] =
    getservent_again junk fuel (set_fp sd (Some rest)) fl' rest [].
Proof.
  intros Hfl H Hsp Hcm Hn Hv.
  destruct (fgetln_short junk fl _ rest Hfl (line_char_entry _ _ _ _ _ _ H Hsp Hcm) Hn)
    as (buf & fl' & E & Eb & Hfl').
  exists fl'. split; [exact Hfl' |].
  cbn [getservent_again]. rewrite E. cbv beta iota. rewrite Eb.
  rewrite (app_assoc (serv_line name digits proto aliases) sp cm).
  rewrite line_view_plain; [| rewrite forallb_app, plain_serv_line by exact H;
    refine (forallb_impl _ _ _ sptab_char_props Hsp) | | exact Hcm].
  2:{ unfold entry_ok in H. destruct name; [discriminate H | discriminate]. }
  cbn [alloc_call negb]. rewrite parse_entry_line_port by assumption.
  replace (USHRT_MAX <? fst (digits_val digits 0)) with true
    by (symmetry; apply Z.ltb_lt; exact Hv).
  reflexivity.
Qed.

Definition str (s : String.string) : bytes := String.list_ascii_of_string s.

(** A services file: a comment, a blank line, an entry with a comment,
    an entry whose port is out of range and a short entry. *)
Definition services_example : bytes :=
  str "# Network services" ++ [NL] ++ [NL] ++
  str "http 80/tcp www www-http # WWW" ++ [NL] ++
  str "bad 70000/tcp" ++ [NL] ++ str "ssh 22/tcp" ++ [NL].

Definition services_after_http : bytes :=
  str "bad 70000/tcp" ++ [NL] ++ str "ssh 22/tcp" ++ [NL].

Definition http_entry : servent :=
  mk_servent (str "http") 20480 (str "tcp") [str "www"; str "www-http"].

Lemma getservent_aliases_fit_witness :
  exists se sd' fl' al',
    getservent_r (fun _ => NUL) None (mk_sd (Some services_example) 0 false)
      (mk_fl None 0) [] = (0, Some se, sd', fl', al') /\
    se = http_entry /\ (length (s_aliases se) < sd_maxaliases sd')%nat.
Proof.
  assert (E0 : exists sd' fl' al',
    getservent_r (fun _ => NUL) None (mk_sd (Some services_example) 0 false)
      (mk_fl None 0) [] = (0, Some http_entry, sd', fl', al')).
  { destruct (getservent_r (fun _ => NUL) None (mk_sd (Some services_example) 0 false)
      (mk_fl None 0) []) as [[[[r o] sd'] fl'] al'] eqn:E.
    exists sd', fl', al'. vm_compute in E. inversion E. reflexivity. }
  destruct E0 as (sd' & fl' & al' & E).
  exists http_entry, sd', fl', al'. split; [exact E |]. split; [reflexivity |].
  exact (getservent_aliases_fit (fun _ => NUL) None (mk_sd (Some services_example) 0 false)
    (mk_fl None 0) [] http_entry sd' fl' al' E).
Defined.

Lemma getservent_reads_entry_witness :
  exists sd' fl',
    getservent_r (fun _ => NUL) None (mk_sd (Some services_example) 0 false)
      (mk_fl None 0) [] = (0, Some http_entry, sd', fl', []) /\
    sd_fp sd' = Some services_after_http /\ fl_ok fl'.
Proof.
  apply (getservent_reads_entry (fun _ => NUL) None (mk_sd (Some services_example) 0 false)
    (mk_fl None 0) [str "# Network services"; []] (str "http") (str "80") (str "tcp")
    [str "www"; str "www-http"] [SP] (str "# WWW") services_after_http);
    first [reflexivity | (left; reflexivity) | (apply Nat.leb_le; reflexivity)
          | (apply Z.leb_le; reflexivity)].
Defined.

Lemma getservent_skips_port_out_of_range_witness :
  exists fl', fl_ok fl' /\
    getservent_again (fun _ => NUL) 3 (mk_sd None 0 false) (mk_fl None 0)
      services_after_http [] =
    getservent_again (fun _ => NUL) 2 (mk_sd (Some (str "ssh 22/tcp" ++ [NL])) 0 false)
      fl' (str "ssh 22/tcp" ++ [NL]) [].
Proof.
  apply (getservent_skips_port_out_of_range (fun _ => NUL) 2 (mk_sd None 0 false)
    (mk_fl None 0) (str "bad") (str "70000") (str "tcp") [] [] [] (str "ssh 22/tcp" ++ [NL]));
    first [reflexivity | (left; reflexivity) | (apply Nat.leb_le; reflexivity)
          | (apply Z.ltb_lt; reflexivity)].
Defined.

(** The first [bufsiz] of the statics: the size [fgetln] reads a line
    with before it grows the buffer. *)
Definition fl_cap (st : fgetln_s) : nat :=
  match fl_buf st with None => BUFSIZ | Some _ => fl_bufsiz st end.

Lemma fgets_take_long k (f : bytes) :
  forallb line_char (firstn k f) = true -> (k <= length f)%nat ->
  fgets_take k f = (firstn k f, skipn k f).
Proof.
  revert f; induction k as [| k IH]; intros f Hl Hk; [destruct f; reflexivity |].
  destruct f as [| c f]; [cbn in Hk; lia |].
  cbn [firstn forallb] in Hl. apply andb_prop in Hl as [Hc Hl].
  cbn [fgets_take]. destruct (line_char_props c Hc) as [_ ->].
  rewrite IH by (assumption || (cbn in Hk; lia)). reflexivity.
Qed.

Lemma scan_nl_nul (p x : bytes) j :
  forallb line_char p = true -> scan_nl (p ++ NUL :: x) j = None.
Proof.
  revert j; induction p as [| c p IH]; intros j Hp; [reflexivity |].
  cbn [forallb] in Hp. apply andb_prop in Hp as [Hc Hp].
  cbn [app scan_nl]. destruct (line_char_props c Hc) as [-> ->]. apply IH, Hp.
Qed.

Lemma scan_nl_ge (l : bytes) j k : scan_nl l j = Some k -> (j <= k)%nat.
Proof.
  revert j; induction l as [| c l IH]; intros j E; cbn [scan_nl] in E; [discriminate |].
  destruct (Ascii.eqb c NL); [injection E; lia |].
  destruct (Ascii.eqb c NUL); [discriminate | apply IH in E; lia].
Qed.

Lemma length_realloc_bytes junk (b : bytes) n : length (realloc_bytes junk b n) = n.
Proof.
  unfold realloc_bytes. rewrite length_app, length_firstn, length_map, length_seq. lia.
Qed.

Lemma firstn_firstn_le (l : bytes) m n : (m <= n)%nat -> firstn m (firstn n l) = firstn m l.
Proof. intros H. rewrite firstn_firstn. f_equal. lia. Qed.

(** Memory below [B] is kept by a [realloc] to at least [B] bytes and by
    a write at [B] or above. *)
Lemma realloc_bytes_prefix junk (b : bytes) n B :
  (B <= n)%nat -> (B <= length b)%nat ->
  firstn B (realloc_bytes junk b n) = firstn B b.
Proof.
  intros H1 H2. unfold realloc_bytes. rewrite firstn_app, length_firstn.
  replace (B - Nat.min n (length b))%nat with 0%nat by lia.
  rewrite app_nil_r. apply firstn_firstn_le, H1.
Qed.

Lemma write_at_prefix (m d : bytes) off B :
  (B <= off)%nat -> (off <= length m)%nat -> firstn B (write_at m off d) = firstn B m.
Proof.
  intros H1 H2. unfold write_at. rewrite firstn_app, length_firstn.
  replace (B - Nat.min off (length m))%nat with 0%nat by lia.
  rewrite app_nil_r. apply firstn_firstn_le, H1.
Qed.

Lemma fgets_consumes (m m' f f' : bytes) off n :
  (2 <= n)%nat -> fgets m off n f = Some (m', f') -> (length f' < length f)%nat.
Proof.
  intros Hn E. destruct f as [| c f]; [discriminate |]. unfold fgets in E.
  destruct (n - 1)%nat as [| k] eqn:Ek; [lia |]. cbn [fgets_take] in E.
  destruct (Ascii.eqb c NL).
  - injection E as _ <-. cbn. lia.
  - assert (Hk : forall k g, (length (snd (fgets_take k g)) <= length g)%nat).
    { induction k0 as [| k0 IH]; intros [| a g]; cbn [fgets_take]; try (cbn; lia).
      destruct (Ascii.eqb a NL); [cbn; lia |].
      specialize (IH g). destruct (fgets_take k0 g). cbn in *. lia. }
    specialize (Hk k f). destruct (fgets_take k f) as [ch r].
    injection E as _ <-. cbn in *. lia.
Qed.

(** The [while] loop of [fgetln] keeps the first [B] bytes of the buffer,
    and a line it returns ends at or after [B]. *)
Lemma fgetln_loop_prefix junk B (P : bytes) (fuel : nat) :
  forall buf bs len (f : bytes),
  length P = B -> firstn B buf = P -> (len <= bs)%nat -> (B <= bs)%nat ->
  ((B <= len)%nat \/ strchr_nl buf len = None) -> (length f < fuel)%nat ->
  exists buf' len' fl' f',
    fgetln_loop junk fuel buf bs len f [] = (Some (buf', len'), fl', f', []) /\
    (B <= len')%nat /\ firstn B buf' = P.
Proof.
  induction fuel as [| fuel IH]; intros buf bs len f HP Hb H1 H2 H3 Hf; [lia |].
  assert (Hlen : (B <= length buf)%nat).
  { pose proof (f_equal (@length Ascii.ascii) Hb) as L.
    rewrite length_firstn in L. lia. }
  cbn [fgetln_loop]. destruct (strchr_nl buf len) as [j |] eqn:Ej.
  - destruct H3 as [H3 | H3]; [| discriminate H3].
    unfold strchr_nl in Ej. apply scan_nl_ge in Ej.
    do 4 eexists. split; [reflexivity |]. split; [lia | exact Hb].
  - cbn [alloc_call negb].
    assert (Hr : firstn B (realloc_bytes junk buf (bs + BUFSIZ)) = P).
    { rewrite realloc_bytes_prefix by lia. exact Hb. }
    destruct (fgets (realloc_bytes junk buf (bs + BUFSIZ)) bs BUFSIZ f)
      as [[nbuf' f'] |] eqn:Eg.
    + assert (Hw : firstn B nbuf' = P).
      { destruct f as [| c f0]; [discriminate Eg |]. unfold fgets in Eg.
        destruct (fgets_take (BUFSIZ - 1) (c :: f0)) as [ch r].
        injection Eg as <- _. rewrite write_at_prefix; [exact Hr | lia |].
        rewrite length_realloc_bytes. lia. }
      apply fgets_consumes in Eg; [| unfold BUFSIZ; lia].
      apply IH; [exact HP | exact Hw | lia | lia | left; lia | lia].
    + do 4 eexists. split; [reflexivity |]. split; [lia | exact Hr].
Qed.

Lemma fgetln_long junk fl (f : bytes) :
  fl_ok fl -> forallb line_char (firstn (fl_cap fl - 1) f) = true ->
  (fl_cap fl - 1 <= length f)%nat ->
  exists buf len fl' f',
    fgetln junk fl f [] = (Some (buf, len), fl', f', []) /\
    (fl_cap fl <= len)%nat /\ firstn (fl_cap fl) buf = firstn (fl_cap fl - 1) f ++ [NUL].
Proof.
  intros Hfl Hl Hn.
  assert (Hbody : forall b B, (BUFSIZ <= B)%nat ->
    forallb line_char (firstn (B - 1) f) = true -> (B - 1 <= length f)%nat ->
    exists buf len fl' f',
      fgetln_body junk b B f [] = (Some (buf, len), fl', f', []) /\
      (B <= len)%nat /\ firstn B buf = firstn (B - 1) f ++ [NUL]).
  { clear Hfl Hl Hn. intros b B HB Hl Hn. unfold fgetln_body.
    assert (Hfg : fgets b 0 B f =
      Some (write_at b 0 (firstn (B - 1) f ++ [NUL]), skipn (B - 1) f)).
    { unfold fgets. rewrite fgets_take_long by assumption.
      destruct f; [cbn in Hn; unfold BUFSIZ in HB; lia | reflexivity]. }
    rewrite Hfg.
    set (P := firstn (B - 1) f ++ [NUL]).
    assert (HP : length P = B).
    { unfold P. rewrite length_app, length_firstn. cbn [length].
      unfold BUFSIZ in HB. lia. }
    assert (Hw : write_at b 0 P = P ++ skipn B b).
    { unfold write_at. rewrite HP. reflexivity. }
    rewrite Hw.
    apply (fgetln_loop_prefix junk B P).
    - exact HP.
    - rewrite <- HP. apply firstn_length_app.
    - lia.
    - unfold BUFSIZ in HB; lia.
    - right. unfold strchr_nl. cbn [skipn]. unfold P.
      rewrite <- app_assoc. apply scan_nl_nul, Hl.
    - lia. }
  unfold fgetln, fl_cap in *. destruct fl as [[b |] B]; cbn [fl_buf fl_bufsiz] in *.
  - destruct Hfl as [Hfl | Hfl]; [discriminate Hfl |]. apply Hbody; assumption.
  - cbn [alloc_call]. apply Hbody; [reflexivity | assumption | assumption].
Qed.

Lemma cut_hash_nul (p s : bytes) :
  forallb line_char p = true ->
  cstr (match index_of HASH (p ++ NUL :: s) with
        | Some i => firstn i (p ++ NUL :: s)
        | None => p ++ NUL :: s
        end) =
  cstr (match index_of HASH p with Some i => firstn i p | None => p end).
Proof.
  induction p as [| c p IH]; intros Hp.
  - cbn [app index_of]. destruct (index_of HASH s); reflexivity.
  - cbn [forallb] in Hp. apply andb_prop in Hp as [Hc Hp].
    specialize (IH Hp). destruct (line_char_props c Hc) as [Enul _].
    cbn [app index_of]. destruct (Ascii.eqb c HASH); [reflexivity |].
    revert IH.
    destruct (index_of HASH (p ++ NUL :: s)), (index_of HASH p); intros IH;
      cbn [firstn cstr]; rewrite Enul, IH; reflexivity.
Qed.

Lemma firstn_nul (q s : bytes) n :
  (S (length q) <= n)%nat -> exists s', firstn n (q ++ NUL :: s) = q ++ NUL :: s'.
Proof.
  intros H. rewrite firstn_app, firstn_all2 by lia.
  destruct (n - length q)%nat as [| m] eqn:Em; [lia |].
  exists (firstn m s). reflexivity.
Qed.

(** A line whose first [length p + 1] bytes are [p] and a NUL gives the
    view of the line [p]. *)
Lemma line_view_cut (raw p : bytes) :
  forallb line_char p = true -> p <> [] ->
  firstn (S (length p)) raw = p ++ [NUL] ->
  line_view raw = line_view (p ++ [NL]).
Proof.
  intros Hp Hne Hraw.
  rewrite <- (firstn_skipn (S (length p)) raw), Hraw, <- app_assoc.
  cbn [app]. set (s := skipn (S (length p)) raw). clearbody s. clear Hraw raw.
  destruct p as [| c p']; [contradiction |].
  unfold line_view. cbn [app].
  destruct (Ascii.eqb c HASH || Ascii.eqb c NL); [reflexivity |].
  replace (c :: p' ++ NUL :: s) with ((c :: p') ++ NUL :: s) by reflexivity.
  replace (c :: p' ++ [NL]) with ((c :: p') ++ [NL]) by reflexivity.
  rewrite last_last, Ascii.eqb_refl, (length_app (c :: p') [NL]).
  replace (length (c :: p') + length [NL] - 1)%nat with (length (c :: p'))
    by (cbn [length]; lia).
  rewrite firstn_length_app. f_equal.
  assert (Hlen : (S (length (c :: p')) <=
    (if Ascii.eqb (last ((c :: p') ++ NUL :: s) NUL) NL
     then length ((c :: p') ++ NUL :: s) - 1
     else length ((c :: p') ++ NUL :: s)))%nat).
  { rewrite length_app. cbn [length].
    destruct (Ascii.eqb (last ((c :: p') ++ NUL :: s) NUL) NL) eqn:El; [| lia].
    destruct s as [| x s]; [| cbn [length]; lia].
    rewrite last_last in El. discriminate El. }
  destruct (firstn_nul (c :: p') s _ Hlen) as [s' Es]. rewrite Es.
  apply cut_hash_nul, Hp.
Qed.

Lemma getservent_again_view junk fuel sd fl (f : bytes) buf len fl1 (f1 : bytes)
  name digits proto aliases (sp : bytes) :
  fgetln junk fl f [] = (Some (buf, len), fl1, f1, []) ->
  line_view (firstn len buf) = Some (serv_line name digits proto aliases ++ sp) ->
  entry_ok name digits proto aliases = true -> forallb is_sptab sp = true ->
  fst (digits_val digits 0) <= USHRT_MAX ->
  exists sd',
    getservent_again junk (S fuel) sd fl f [] =
    (0, Some (mk_servent name (htons (fst (digits_val digits 0))) proto aliases),
     sd', fl1, []) /\ sd_fp sd' = Some f1.
Proof.
  intros E Ev H Hsp Hv.
  cbn [getservent_again]. rewrite E. cbv beta iota. rewrite Ev.
  cbn [alloc_call negb]. rewrite parse_entry_line by assumption.
  unfold entry_ok in H. apply andb_prop in H as [H Ha]. apply andb_prop in H as [_ Hp].
  destruct (Nat.eqb (sd_maxaliases (set_fp sd (Some f1))) 0) eqn:Ez;
    cbn [alloc_call negb].
  - destruct (aliases_of_line proto aliases sp 10 Hp Ha Hsp) as (m & cp & E1 & E2);
      [lia |].
    rewrite E1, E2. eexists. split; reflexivity.
  - apply Nat.eqb_neq in Ez.
    destruct (aliases_of_line proto aliases sp (sd_maxaliases (set_fp sd (Some f1)))
      Hp Ha Hsp) as (m & cp & E1 & E2); [exact (proj1 (Nat.neq_0_lt_0 _) Ez) |].
    rewrite E1, E2. eexists. split; reflexivity.
Qed.

Lemma fl_cap_ok fl : fl_ok fl -> (BUFSIZ <= fl_cap fl)%nat.
Proof.
  unfold fl_ok, fl_cap. destruct (fl_buf fl); [| lia].
  intros [H | H]; [discriminate H | exact H].
Qed.

(** X20. [fgetln] reads the rest of a long line at [buf[bufsiz]] and
    leaves the NUL its first [fgets] put at [buf[bufsiz - 1]], so
    [getservent_r] parses a line of [bufsiz - 1] or more characters as
    its first [bufsiz - 1] characters: when these are an entry, that
    entry is returned, whatever follows on the line. *)
Theorem getservent_cuts_long_line junk services sd fl (f : bytes)
  name digits proto aliases (sp cm : bytes) :
  sd_fp sd = Some f -> fl_ok fl ->
  firstn (fl_cap fl - 1) f = serv_line name digits proto aliases ++ sp ++ cm ->
  (fl_cap fl - 1 <= length f)%nat ->
  entry_ok name digits proto aliases = true ->
  forallb is_sptab sp = true -> comment_ok cm = true ->
  fst (digits_val digits 0) <= USHRT_MAX ->
  exists sd' fl',
    getservent_r junk services sd fl [] =
    (0, Some (mk_servent name (htons (fst (digits_val digits 0))) proto aliases),
     sd', fl', []).
Proof.
  intros Hfp Hfl Hp Hn H Hsp Hcm Hv.
  assert (Hl : forallb line_char (firstn (fl_cap fl - 1) f) = true)
    by (rewrite Hp; apply line_char_entry; assumption).
  destruct (fgetln_long junk fl f Hfl Hl Hn) as (buf & len & fl' & f' & E & Hlen & Hpre).
  pose proof (fl_cap_ok fl Hfl) as HB. unfold BUFSIZ in HB.
  assert (Hv' : line_view (firstn len buf) =
                Some (serv_line name digits proto aliases ++ sp)).
  { rewrite (line_view_cut (firstn len buf) (firstn (fl_cap fl - 1) f)).
    - rewrite Hp, app_assoc. apply line_view_plain; [| | exact Hcm].
      + rewrite forallb_app, plain_serv_line by exact H.
        refine (forallb_impl _ _ _ sptab_char_props Hsp).
      + unfold entry_ok in H. destruct name; [discriminate H | discriminate].
    - exact Hl.
    - rewrite Hp. unfold entry_ok in H. destruct name; [discriminate H | discriminate].
    - rewrite length_firstn.
      replace (S (Nat.min (fl_cap fl - 1) (length f))) with (fl_cap fl) by lia.
      rewrite firstn_firstn_le by exact Hlen. exact Hpre. }
  unfold getservent_r. rewrite Hfp.
  destruct (getservent_again_view junk (length f) sd fl f buf len fl' f'
    name digits proto aliases sp E Hv' H Hsp Hv) as (sd' & E2 & _).
  exists sd', fl'. exact E2.
Qed.

(** A line of 1089 characters: [svc 7/tcp] and 120 aliases [alias678].
    Its first 1023 characters end in the middle of the 113th alias. *)
Definition long_services : bytes :=
  str "svc 7/tcp" ++ concat (repeat (str " alias678") 120) ++ [NL] ++
  str "ssh 22/tcp" ++ [NL].

Lemma getservent_cuts_long_line_witness :
  exists sd' fl',
    getservent_r (fun _ => NUL) None (mk_sd (Some long_services) 0 false)
      (mk_fl None 0) [] =
    (0, Some (mk_servent (str "svc") 1792 (str "tcp")
                (repeat (str "alias678") 112 ++ [str "alias"])), sd', fl', []).
Proof.
  apply (getservent_cuts_long_line (fun _ => NUL) None (mk_sd (Some long_services) 0 false)
    (mk_fl None 0) long_services (str "svc") (str "7") (str "tcp")
    (repeat (str "alias678") 112 ++ [str "alias"]) [] []);
    first [reflexivity | (left; reflexivity) | (apply Nat.leb_le; reflexivity)
          | (apply Z.leb_le; reflexivity) | vm_compute; reflexivity].
Defined.
